(** * esh: the embedded shell's line-input engine (esh.c)

    A shallow embedding of [esh.c]: the escape filter and dispatcher
    [esh_rx], the line editor [handle_char], the in-place tokenizer
    [make_arg_array] and the dispatch [execute_command].

    Conventions of the embedding.
    - [char] is [ascii]; NUL is ["000"], ESC is ["027"], newline ["010"].
    - [esh->buffer] is a [list ascii]; its declared size
      [ESH_BUFFER_LEN + 1] is part of the well-formedness predicate [wf].
      A load or a store outside the list is undefined behaviour in C and is
      the error [OutOfBounds i] here, [i] being the offending index.
    - [size_t] counters ([cnt], [i], [dest]) and [int argc] are [nat]: every
      value they take is bounded by [cnt], which the editor keeps at most
      [ESH_BUFFER_LEN + 1] (lemmas [reachable_inv], [make_arg_array_argc_le]),
      so no wrap-around arises whenever the array size itself is representable.
    - [esh->flags] is a [Z] handled with [Z.land], [Z.lor] and [Z.lnot]
      exactly as the C operators [&], [|=] and [&= ~].
    - A [char *] stored in [esh->argv] is [Some i] for [&esh->buffer[i]] and
      [None] for the null pointer left by [memset].
    - The three hooks ([print], [callback], [overflow]) are calls out of the
      engine: each call is recorded as an [event] carrying what the callee
      can read through its arguments.  Hooks supplied by the embedder are
      taken not to write to the context, and [print] and [callback] are
      taken to be installed ([esh_register_print], [esh_register_callback])
      before the first byte arrives.
    - [ESH_BUFFER_LEN], [ESH_ARGC_MAX] and [ESH_PROMPT] come from the
      configuration header and are parameters here. *)

From Stdlib Require Import ZArith Ascii String Lia Bool.
From stdpp Require Import base list.

Open Scope char_scope.
Open Scope nat_scope.

(** ** Characters and <ctype.h> *)

Definition NUL : ascii := "000".
Definition ESC : ascii := "027".
Definition NL : ascii := "010".
Definition BS : ascii := "008".
Definition DEL : ascii := "127".
Definition SQUOTE : ascii := "039".
Definition DQUOTE : ascii := "034".

(** [isalpha] and [isspace] of the C locale. *)
Definition isalpha (c : ascii) : bool :=
  let n := nat_of_ascii c in
  ((65 <=? n) && (n <=? 90)) || ((97 <=? n) && (n <=? 122)).

Definition isspace (c : ascii) : bool :=
  let n := nat_of_ascii c in
  (n =? 32) || ((9 <=? n) && (n <=? 13)).

(** The bytes of a C string: everything before its first NUL. *)
Fixpoint c_string (l : list ascii) : list ascii :=
  match l with
  | [] => []
  | c :: l' => if (c =? NUL)%char then [] else c :: c_string l'
  end.

(** ** The context *)

(** enum esh_flags *)
Definition IN_ESCAPE : Z := 1.
Definition IN_BRACKET_ESCAPE : Z := 2.

(** What [esh->overflow] points to. *)
Inductive overflow_handler : Type :=
| internal_overflow_handler
| user_overflow_handler.

Record esh : Type := mk_esh {
  buffer : list ascii;
  argv : list (option nat);
  cnt : nat;
  flags : Z;
  overflow : overflow_handler
}.

Definition set_buffer (b : list ascii) (e : esh) : esh :=
  mk_esh b (argv e) (cnt e) (flags e) (overflow e).
Definition set_argv (a : list (option nat)) (e : esh) : esh :=
  mk_esh (buffer e) a (cnt e) (flags e) (overflow e).
Definition set_cnt (n : nat) (e : esh) : esh :=
  mk_esh (buffer e) (argv e) n (flags e) (overflow e).
Definition set_flags (f : Z) (e : esh) : esh :=
  mk_esh (buffer e) (argv e) (cnt e) f (overflow e).
Definition set_overflow (h : overflow_handler) (e : esh) : esh :=
  mk_esh (buffer e) (argv e) (cnt e) (flags e) h.

(** ** Calls out of the engine *)

Inductive event : Type :=
| EvPrint (s : list ascii)
| EvOverflow (buf : list ascii)
| EvCallback (argc : nat) (args : list (option nat)) (buf : list ascii).

(** ** Results and the monad of the engine *)

Inductive result (A : Type) : Type :=
| Ok (a : A)
| OutOfBounds (i : nat).
Arguments Ok {A} a.
Arguments OutOfBounds {A} i.

Definition M (A : Type) : Type := esh -> result (A * esh * list event).

Definition ret {A} (a : A) : M A := fun s => Ok (a, s, []).

Definition bind {A B} (m : M A) (f : A -> M B) : M B :=
  fun s =>
    match m s with
    | Ok (a, s1, t1) =>
        match f a s1 with
        | Ok (b, s2, t2) => Ok (b, s2, t1 ++ t2)
        | OutOfBounds i => OutOfBounds i
        end
    | OutOfBounds i => OutOfBounds i
    end.

Notation "x <- m ;; k" := (bind m (fun x => k))
  (at level 100, m at next level, right associativity).
Notation "m ;;; k" := (bind m (fun _ => k))
  (at level 100, right associativity).

Definition get {A} (f : esh -> A) : M A := fun s => Ok (f s, s, []).
Definition modify (f : esh -> esh) : M unit := fun s => Ok (tt, f s, []).
Definition emit (e : event) : M unit := fun s => Ok (tt, s, [e]).

(** [esh->buffer[i]] as an rvalue. *)
Definition load (i : nat) : M ascii :=
  fun s =>
    match buffer s !! i with
    | Some c => Ok (c, s, [])
    | None => OutOfBounds i
    end.

(** [esh->buffer[i] = c]. *)
Definition store (i : nat) (c : ascii) : M unit :=
  fun s =>
    if i <? length (buffer s)
    then Ok (tt, set_buffer (<[i := c]> (buffer s)) s, [])
    else OutOfBounds i.

(** ** The two lines the documentation of [make_arg_array] works out *)

Definition bytes (s : string) : list ascii := list_ascii_of_string s.

(** The line git, three spaces, config, a space, user.name, a space, and
    My Name between double quotes. *)
Definition line_git : list ascii :=
  bytes "git   config user.name " ++ [DQUOTE] ++ bytes "My Name" ++ [DQUOTE].

(** The bytes the pass writes for [line_git], final terminator included:
    one NUL for each whitespace byte. *)
Definition line_git_rewritten : list ascii :=
  bytes "git" ++ [NUL; NUL; NUL] ++ bytes "config" ++ [NUL]
    ++ bytes "user.name" ++ [NUL] ++ bytes "My Name" ++ [NUL].

(** The same tokens with a single NUL between any two of them. *)
Definition line_git_single_nul : list ascii :=
  bytes "git" ++ [NUL] ++ bytes "config" ++ [NUL]
    ++ bytes "user.name" ++ [NUL] ++ bytes "My Name" ++ [NUL].

(** The line why, then  would you ever  between double quotes, then a
    double quote between single quotes, then  do this??  between double
    quotes, with nothing in between. *)
Definition line_why : list ascii :=
  bytes "why" ++ [DQUOTE] ++ bytes " would you ever"
    ++ [DQUOTE; SQUOTE; DQUOTE; SQUOTE; DQUOTE] ++ bytes "do this??" ++ [DQUOTE].

(** The single token of [line_why]: the double quote that was between
    single quotes is the only quote character left. *)
Definition token_why : list ascii :=
  bytes "why would you ever" ++ [DQUOTE] ++ bytes "do this??".

(** ** Sample configurations, inputs and contexts

    Small instances of the configuration, used to run the engine on
    concrete input. *)

Definition demo_prompt : list ascii := bytes "$ ".

(** A context holding [line] at the start of a buffer of [buffer_len + 1]
    bytes. *)
Definition holding (buffer_len argc_max : nat) (line : list ascii) : esh :=
  mk_esh (line ++ replicate (buffer_len + 1 - length line) NUL)
         (replicate argc_max None) (length line) 0%Z internal_overflow_handler.

(** a between double quotes, then the words bc and d. *)
Definition line_quoted_first : list ascii :=
  [DQUOTE] ++ bytes "a" ++ [DQUOTE] ++ bytes " bc d".

(** a, an empty pair of double quotes and a space: four bytes. *)
Definition line_quote_space : list ascii :=
  bytes "a" ++ [DQUOTE; DQUOTE] ++ bytes " ".

(** 1, then ESC O 2: an escape sequence whose introducer no letter
    follows. *)
Definition line_open_escape : list ascii :=
  bytes "1" ++ [ESC] ++ bytes "O2".

(** The context and the trace after ls -l and a newline were fed to the
    initial context of a buffer of 8 + 1 bytes and 2 argument slots, with
    the prompt [demo_prompt]. *)
Definition replay_state : esh :=
  mk_esh (bytes "ls" ++ [NUL] ++ bytes "-l" ++ replicate 4 NUL)
         [Some 0; Some 3] 0 0%Z internal_overflow_handler.

Definition replay_trace : list event :=
  map (fun c => EvPrint [c]) (bytes "ls -l")
    ++ [EvPrint [NL]; EvCallback 2 [Some 0; Some 3] (buffer replay_state);
        EvPrint ["$"]; EvPrint [" "]].

(** The calls to the command callback in a trace. *)
Definition is_callback (e : event) : bool :=
  match e with EvCallback _ _ _ => true | _ => false end.

Definition callbacks (t : list event) : list event := List.filter is_callback t.

(** ** Whitespace-separated words

    What a reader of a command line without quote characters calls its
    words: a word starts at a byte that is no whitespace and follows
    whitespace or the start of the line, and runs up to the next whitespace
    byte.  [lws] tells whether the previous byte was whitespace. *)

Fixpoint take_word (line : list ascii) : list ascii :=
  match line with
  | [] => []
  | c :: line' => if isspace c then [] else c :: take_word line'
  end.

Fixpoint words (lws : bool) (line : list ascii) : list (list ascii) :=
  match line with
  | [] => []
  | c :: line' =>
      if isspace c then words true line'
      else if lws then (c :: take_word line') :: words false line'
      else words false line'
  end.

Section Esh.

(** Configuration macros of esh_config.h. *)
Variable ESH_BUFFER_LEN : nat.
Variable ESH_ARGC_MAX : nat.
Variable ESH_PROMPT : list ascii.

(** The array sizes of [struct esh]. *)
Definition wf (s : esh) : Prop :=
  length (buffer s) = ESH_BUFFER_LEN + 1 /\ length (argv s) = ESH_ARGC_MAX.

(** ** Output helpers *)

Definition esh_putc (c : ascii) : M unit :=
  let c_as_string := [c; NUL] in
  emit (EvPrint (c_string c_as_string)).

Fixpoint esh_puts_F (s : list ascii) : M unit :=
  match s with
  | [] => ret tt
  | c :: s' => if (c =? NUL)%char then ret tt else esh_putc c ;;; esh_puts_F s'
  end.

Definition print_prompt : M unit := esh_puts_F ESH_PROMPT.

Definition overflow_message : list ascii :=
  list_ascii_of_string
    (String NL (String NL ("esh: command buffer overflow" ++ String NL EmptyString))).

Definition internal_overflow : M Z :=
  esh_puts_F overflow_message ;;; ret 0%Z.

(** [esh->overflow(esh, esh->buffer)]: the call itself, then what the
    built-in handler does when it is the one installed. *)
Definition call_overflow : M Z :=
  b <- get buffer ;;
  emit (EvOverflow b) ;;;
  h <- get overflow ;;
  match h with
  | internal_overflow_handler => internal_overflow
  | user_overflow_handler => ret 0%Z
  end.

(** [esh->callback(argc, esh->argv)]. *)
Definition call_callback (argc : nat) : M unit :=
  a <- get argv ;;
  b <- get buffer ;;
  emit (EvCallback argc a b).

(** ** Construction *)

Definition esh_init : esh :=
  mk_esh (replicate (ESH_BUFFER_LEN + 1) NUL) (replicate ESH_ARGC_MAX None)
         0 0%Z internal_overflow_handler.

Definition esh_register_overflow_callback (h : option unit) (e : esh) : esh :=
  set_overflow (match h with
                | Some _ => user_overflow_handler
                | None => internal_overflow_handler
                end) e.

(** ** The tokenizer *)

Record locals : Type := mk_locals {
  argc : nat;
  last_was_space : bool;
  dest : nat;
  quote : ascii
}.

(** One iteration of the [for] loop of [make_arg_array].  [esh->buffer[i]]
    is read once: nothing is stored to the buffer between the reads the
    source makes of it within one iteration. *)
Definition make_arg_array_body (i : nat) (l : locals) : M locals :=
  bi <- load i ;;
  if negb (quote l =? NUL)%char then
    l1 <- (if (bi =? quote l)%char then
             ret (mk_locals (argc l) (last_was_space l) (dest l) NUL)
           else
             store (dest l) bi ;;;
             ret (mk_locals (argc l) (last_was_space l) (S (dest l)) (quote l))) ;;
    ret (mk_locals (argc l1) false (dest l1) (quote l1))
  else if isspace bi then
    store (dest l) NUL ;;;
    ret (mk_locals (argc l) true (S (dest l)) (quote l))
  else
    l1 <- (if last_was_space l then
             (if argc l <? ESH_ARGC_MAX then
                modify (fun s => set_argv (<[argc l := Some i]> (argv s)) s)
              else ret tt) ;;;
             ret (mk_locals (S (argc l)) (last_was_space l) (dest l) (quote l))
           else ret l) ;;
    l2 <- (if (bi =? SQUOTE)%char || (bi =? DQUOTE)%char then
             ret (mk_locals (argc l1) (last_was_space l1) (dest l1) bi)
           else
             store (dest l1) bi ;;;
             ret (mk_locals (argc l1) (last_was_space l1) (S (dest l1)) (quote l1))) ;;
    ret (mk_locals (argc l2) false (dest l2) (quote l2)).

(** [for (size_t i = i0; i < i0 + n; ++i) body]. *)
Fixpoint make_arg_array_loop (n i : nat) (l : locals) : M locals :=
  match n with
  | 0 => ret l
  | S n' => l' <- make_arg_array_body i l ;; make_arg_array_loop n' (S i) l'
  end.

Definition make_arg_array : M nat :=
  n <- get cnt ;;
  l <- make_arg_array_loop n 0 (mk_locals 0 true 0 NUL) ;;
  store (dest l) NUL ;;;
  store ESH_BUFFER_LEN NUL ;;;
  ret (argc l).

(** ** Dispatch *)

Definition execute_command : M unit :=
  argc <- make_arg_array ;;
  (if ESH_ARGC_MAX <? argc then call_overflow ;;; ret tt
   else if 0 <? argc then call_callback argc
   else ret tt) ;;;
  modify (set_cnt 0) ;;;
  print_prompt.

(** ** The line editor *)

Definition handle_char (c : ascii) : M unit :=
  let is_bksp := (c =? BS)%char || (c =? DEL)%char in
  n <- get cnt ;;
  if (ESH_BUFFER_LEN <? n) || ((n =? ESH_BUFFER_LEN) && negb is_bksp) then
    modify (set_cnt (ESH_BUFFER_LEN + 1)) ;;;
    store ESH_BUFFER_LEN NUL ;;;
    call_overflow ;;;
    ret tt
  else if is_bksp then
    (if negb (n =? 0) then
       emit (EvPrint [BS; " "; BS]) ;;;
       modify (set_cnt (n - 1))
     else ret tt)
  else
    esh_putc c ;;;
    store n c ;;;
    modify (set_cnt (n + 1)).

(** ** The escape filter and entry point *)

Definition esh_rx (c : ascii) : M unit :=
  f <- get flags ;;
  if negb (Z.land f IN_BRACKET_ESCAPE =? 0)%Z then
    (if isalpha c then
       modify (set_flags (Z.land f (Z.lnot (Z.lor IN_ESCAPE IN_BRACKET_ESCAPE))))
     else ret tt)
  else if negb (Z.land f IN_ESCAPE =? 0)%Z then
    (if (c =? "[")%char || (c =? "O")%char then
       modify (set_flags (Z.lor f IN_BRACKET_ESCAPE))
     else
       modify (set_flags (Z.land f (Z.lnot IN_ESCAPE))))
  else if (c =? NUL)%char then ret tt
  else if (c =? ESC)%char then modify (set_flags (Z.lor f IN_ESCAPE))
  else if (c =? NL)%char then esh_putc c ;;; execute_command
  else handle_char c.

(** Bytes delivered one call at a time. *)
Fixpoint feed (cs : list ascii) : M unit :=
  match cs with
  | [] => ret tt
  | c :: cs' => esh_rx c ;;; feed cs'
  end.

(** ** States and inputs the properties speak about *)

(** Neither escape flag is set. *)
Definition no_escape (s : esh) : Prop :=
  Z.land (flags s) IN_ESCAPE = 0%Z /\ Z.land (flags s) IN_BRACKET_ESCAPE = 0%Z.

(** A byte that [esh_rx] hands to [handle_char] and that is no backspace. *)
Definition plain (c : ascii) : Prop :=
  c <> NUL /\ c <> ESC /\ c <> NL /\ c <> BS /\ c <> DEL.

(** What the installed overflow handler prints when it is called. *)
Definition handler_output (s : esh) : list event :=
  match overflow s with
  | internal_overflow_handler => map (fun c => EvPrint [c]) overflow_message
  | user_overflow_handler => []
  end.

Definition prompt_output : list event :=
  map (fun c => EvPrint [c]) (c_string ESH_PROMPT).

(** The hook [execute_command] calls for a line of [n] arguments, seen from
    the context [s] the tokenizer left. *)
Definition dispatch_output (n : nat) (s : esh) : list event :=
  if ESH_ARGC_MAX <? n then EvOverflow (buffer s) :: handler_output s
  else if 0 <? n then [EvCallback n (argv s) (buffer s)]
  else [].

(** States the engine can be in: built by [esh_init], with any overflow
    handler registered, and driven by [esh_rx]. *)
Inductive reachable : esh -> Prop :=
| reachable_init : reachable esh_init
| reachable_register h s :
    reachable s -> reachable (esh_register_overflow_callback h s)
| reachable_rx c s s' t :
    reachable s -> esh_rx c s = Ok (tt, s', t) -> reachable s'.

(** The escape filter on the flags alone: [Some f] when the byte is consumed
    by the filter, leaving the flags [f]; [None] when the byte goes on to
    the newline dispatch or to the line editor. *)
Definition escape_filter (f : Z) (c : ascii) : option Z :=
  if negb (Z.land f IN_BRACKET_ESCAPE =? 0)%Z then
    Some (if isalpha c
          then Z.land f (Z.lnot (Z.lor IN_ESCAPE IN_BRACKET_ESCAPE)) else f)
  else if negb (Z.land f IN_ESCAPE =? 0)%Z then
    Some (if (c =? "[")%char || (c =? "O")%char
          then Z.lor f IN_BRACKET_ESCAPE else Z.land f (Z.lnot IN_ESCAPE))
  else if (c =? NUL)%char then Some f
  else if (c =? ESC)%char then Some (Z.lor f IN_ESCAPE)
  else None.

(** Two contexts in the replay of a line: [a] is the first pass, [b] the
    second, [F] the buffer the first pass ends with.  They agree on the
    line typed so far; elsewhere [b] holds what [a] holds or what [F]
    holds. *)
Definition replay_rel (F : list ascii) (Aa Ab : list (option nat)) (a b : esh) : Prop :=
  wf a /\ wf b
  /\ cnt a = cnt b /\ flags a = flags b /\ overflow a = overflow b
  /\ argv a = Aa /\ argv b = Ab
  /\ take (cnt a) (buffer a) = take (cnt a) (buffer b)
  /\ (forall p, buffer b !! p = buffer a !! p \/ buffer b !! p = F !! p).

(** What [esh_rx] maintains: the array sizes, the bound on the count, the
    terminator once a byte has been lost, and a line free of NUL bytes. *)
Definition inv (s : esh) : Prop :=
  wf s
  /\ cnt s <= ESH_BUFFER_LEN + 1
  /\ (cnt s = ESH_BUFFER_LEN + 1 -> buffer s !! ESH_BUFFER_LEN = Some NUL)
  /\ NUL ∉ take (cnt s `min` ESH_BUFFER_LEN) (buffer s).

(** ** The tokenizer as the specification words it

    Section 4.3 of the specification, byte by byte, over the line alone:
    [q] is the active quote character (NUL for none) and [lws] is
    last_was_space. *)

Definition is_quote (c : ascii) : bool := (c =? SQUOTE)%char || (c =? DQUOTE)%char.

Definition in_quote (q : ascii) : bool := negb (q =? NUL)%char.

(** The byte starts a new token. *)
Definition starts_token (q : ascii) (lws : bool) (c : ascii) : bool :=
  negb (in_quote q) && negb (isspace c) && lws.

(** What the byte makes the pass write at the write cursor, if anything. *)
Definition emitted (q c : ascii) : option ascii :=
  if in_quote q then (if (c =? q)%char then None else Some c)
  else if isspace c then Some NUL
  else if is_quote c then None
  else Some c.

Definition quote_after (q c : ascii) : ascii :=
  if in_quote q then (if (c =? q)%char then NUL else q)
  else if isspace c then q
  else if is_quote c then c
  else q.

Definition space_after (q c : ascii) : bool := negb (in_quote q) && isspace c.

(** The bytes the pass writes, in order. *)
Fixpoint rewritten (q : ascii) (line : list ascii) : list ascii :=
  match line with
  | [] => []
  | c :: line' =>
      match emitted q c with
      | Some x => x :: rewritten (quote_after q c) line'
      | None => rewritten (quote_after q c) line'
      end
  end.

(** The number of tokens of the line. *)
Fixpoint token_count (q : ascii) (lws : bool) (line : list ascii) : nat :=
  match line with
  | [] => 0
  | c :: line' =>
      (if starts_token q lws c then 1 else 0)
      + token_count (quote_after q c) (space_after q c) line'
  end.

(** The write position at the moment each token starts, [d] being the write
    cursor on entry. *)
Fixpoint token_writes (d : nat) (q : ascii) (lws : bool) (line : list ascii) : list nat :=
  match line with
  | [] => []
  | c :: line' =>
      let d' := match emitted q c with Some _ => S d | None => d end in
      (if starts_token q lws c then [d] else [])
      ++ token_writes d' (quote_after q c) (space_after q c) line'
  end.

(** The read index at the moment each token starts, [i] being the read
    index on entry. *)
Fixpoint token_reads (i : nat) (q : ascii) (lws : bool) (line : list ascii) : list nat :=
  match line with
  | [] => []
  | c :: line' =>
      (if starts_token q lws c then [i] else [])
      ++ token_reads (S i) (quote_after q c) (space_after q c) line'
  end.

(** Recording pointers in [argv] from slot [k] on, while slots remain. *)
Fixpoint record_args (k : nat) (ptrs : list nat) (av : list (option nat)) : list (option nat) :=
  match ptrs with
  | [] => av
  | p :: ptrs' =>
      record_args (S k) ptrs' (if k <? ESH_ARGC_MAX then <[k := Some p]> av else av)
  end.

(** The token a callback reads through [argv[k]]. *)
Definition token_at (s : esh) (k : nat) : option (list ascii) :=
  match argv s !! k with
  | Some (Some p) => Some (c_string (drop p (buffer s)))
  | _ => None
  end.

(** * Properties *)

(** ** Running the monad *)

Ltac unfold_m :=
  unfold bind, get, modify, emit, ret, load, store.

Lemma esh_eta (s : esh) :
  mk_esh (buffer s) (argv s) (cnt s) (flags s) (overflow s) = s.
Proof. by destruct s. Qed.

Lemma ltb_true (a b : nat) : a < b -> (a <? b) = true.
Proof. intros; by apply Nat.ltb_lt. Qed.

Lemma ltb_false (a b : nat) : b <= a -> (a <? b) = false.
Proof. intros; by apply Nat.ltb_ge. Qed.

Lemma store_ok (i : nat) (c : ascii) (s : esh) :
  i < length (buffer s) ->
  store i c s = Ok (tt, set_buffer (<[i := c]> (buffer s)) s, []).
Proof. intros H. unfold store. by rewrite ltb_true. Qed.

Lemma store_out_of_bounds (i : nat) (c : ascii) (s : esh) :
  length (buffer s) <= i -> store i c s = OutOfBounds i.
Proof. intros H. unfold store. by rewrite ltb_false. Qed.

Lemma esh_puts_F_eq (m : list ascii) (s : esh) :
  esh_puts_F m s = Ok (tt, s, map (fun c => EvPrint [c]) (c_string m)).
Proof.
  induction m as [|c m IH]; simpl; [reflexivity|].
  destruct (Ascii.eqb_spec c NUL) as [->|Hc]; [reflexivity|].
  unfold bind, esh_putc, emit. rewrite IH. simpl.
  destruct (Ascii.eqb_spec c NUL); [contradiction|reflexivity].
Qed.

Lemma esh_putc_eq (c : ascii) (s : esh) :
  c <> NUL -> esh_putc c s = Ok (tt, s, [EvPrint [c]]).
Proof.
  intros Hc. unfold esh_putc, emit. simpl.
  destruct (Ascii.eqb_spec c NUL); [contradiction|reflexivity].
Qed.

Lemma call_overflow_eq (s : esh) :
  call_overflow s = Ok (0%Z, s, EvOverflow (buffer s) :: handler_output s).
Proof.
  unfold call_overflow, handler_output, internal_overflow. unfold_m.
  destruct (overflow s); [|reflexivity].
  rewrite esh_puts_F_eq. reflexivity.
Qed.

(** ** One iteration of the tokenizer against the specification's words *)

Lemma make_arg_array_body_eq (i : nat) (l : locals) (s : esh) (c : ascii) :
  buffer s !! i = Some c ->
  dest l < length (buffer s) ->
  make_arg_array_body i l s =
    Ok (mk_locals
          (if starts_token (quote l) (last_was_space l) c then S (argc l) else argc l)
          (space_after (quote l) c)
          (match emitted (quote l) c with Some _ => S (dest l) | None => dest l end)
          (quote_after (quote l) c),
        mk_esh
          (match emitted (quote l) c with
           | Some x => <[dest l := x]> (buffer s)
           | None => buffer s
           end)
          (if starts_token (quote l) (last_was_space l) c && (argc l <? ESH_ARGC_MAX)
           then <[argc l := Some i]> (argv s) else argv s)
          (cnt s) (flags s) (overflow s),
        []).
Proof.
  intros Hi Hd. apply ltb_true in Hd.
  unfold make_arg_array_body, starts_token, emitted, quote_after, space_after,
    in_quote, is_quote.
  unfold_m. rewrite Hi.
  destruct l as [a w d q]; simpl in *.
  unfold set_buffer, set_argv.
  destruct (q =? NUL)%char, (isspace c), w, (a <? ESH_ARGC_MAX),
    ((c =? SQUOTE)%char || (c =? DQUOTE)%char), (c =? q)%char;
    simpl; rewrite ?Hd; simpl; rewrite ?esh_eta; reflexivity.
Qed.

(** ** The whole loop: the buffer is rewritten in place without ever reading
    a byte the pass has already overwritten *)

Lemma line_head (b : list ascii) (i : nat) (c : ascii) (line : list ascii) :
  take (S (length line)) (drop i b) = c :: line ->
  b !! i = Some c /\ take (length line) (drop (S i) b) = line /\ i < length b.
Proof.
  intros H.
  assert (Hi : b !! i = Some c).
  { rewrite <- (Nat.add_0_r i), <- lookup_drop.
    destruct (drop i b); simpl in H; [discriminate|]. by inversion H. }
  rewrite (drop_S _ _ _ Hi) in H. simpl in H.
  split; [done|]. split; [congruence|]. by eapply lookup_lt_Some.
Qed.

Lemma make_arg_array_loop_eq (line : list ascii) :
  forall (i : nat) (l : locals) (s : esh),
    take (length line) (drop i (buffer s)) = line ->
    dest l <= i ->
    exists l',
      make_arg_array_loop (length line) i l s =
        Ok (l',
            mk_esh
              (take (dest l) (buffer s) ++ rewritten (quote l) line
                 ++ drop (dest l + length (rewritten (quote l) line)) (buffer s))
              (record_args (argc l)
                 (token_reads i (quote l) (last_was_space l) line) (argv s))
              (cnt s) (flags s) (overflow s),
            [])
      /\ argc l' = argc l + token_count (quote l) (last_was_space l) line
      /\ dest l' = dest l + length (rewritten (quote l) line).
Proof.
  induction line as [|c line IH]; intros i l s Hline Hd.
  - exists l. simpl. unfold ret.
    rewrite Nat.add_0_r, take_drop, esh_eta. by rewrite !Nat.add_0_r.
  - destruct (line_head _ _ _ _ Hline) as (Hi & Htl & Hlt).
    cbn [length make_arg_array_loop]. unfold bind.
    rewrite (make_arg_array_body_eq i l s c Hi) by lia.
    cbn [rewritten token_reads token_count].
    destruct (emitted (quote l) c) as [x|] eqn:He;
      destruct (starts_token (quote l) (last_was_space l) c) eqn:Hs; cbn [andb];
      match goal with
      | |- context [make_arg_array_loop _ _ ?l1 ?s1] =>
          destruct (IH (S i) l1 s1) as (l' & Hrun & Hargc & Hdest);
          [ cbn [buffer]; rewrite ?drop_insert_lt by lia; done
          | cbn [dest]; lia
          | exists l'; rewrite Hrun; clear Hrun;
            cbn [argc dest quote last_was_space buffer argv cnt flags overflow] in * ]
      end.
    all: split; [|cbn [length]; split; lia].
    all: f_equal; f_equal; f_equal.
    all: try (cbn [length app]; rewrite drop_insert_lt by lia;
              rewrite (take_S_r _ _ x) by (apply list_lookup_insert_eq; lia);
              rewrite take_insert_ge by lia; rewrite <- app_assoc;
              by rewrite Nat.add_succ_r).
    all: cbn [app record_args]; by destruct (argc l <? ESH_ARGC_MAX).
Qed.

(** The write cursor never overtakes the read index. *)
Lemma rewritten_length_le (line : list ascii) :
  forall q, length (rewritten q line) <= length line.
Proof.
  induction line as [|c line IH]; intros q; simpl; [lia|].
  destruct (emitted q c); simpl; specialize (IH (quote_after q c)); lia.
Qed.

Lemma token_count_le (line : list ascii) :
  forall q lws, token_count q lws line <= length line.
Proof.
  induction line as [|c line IH]; intros q lws; simpl; [lia|].
  specialize (IH (quote_after q c) (space_after q c)).
  destruct (starts_token q lws c); lia.
Qed.

Lemma token_reads_length (line : list ascii) :
  forall i q lws, length (token_reads i q lws line) = token_count q lws line.
Proof.
  induction line as [|c line IH]; intros i q lws; simpl; [done|].
  rewrite length_app, IH. by destruct (starts_token q lws c).
Qed.

Lemma token_writes_length (line : list ascii) :
  forall d q lws, length (token_writes d q lws line) = token_count q lws line.
Proof.
  induction line as [|c line IH]; intros d q lws; simpl; [done|].
  rewrite length_app, IH. by destruct (starts_token q lws c).
Qed.

(** ** [make_arg_array] in closed form *)

Lemma make_arg_array_eq (s : esh) :
  wf s ->
  cnt s <= ESH_BUFFER_LEN + 1 ->
  make_arg_array s =
    let line := take (cnt s) (buffer s) in
    let out := rewritten NUL line in
    if length out <=? ESH_BUFFER_LEN then
      Ok (token_count NUL true line,
          mk_esh
            (<[ESH_BUFFER_LEN := NUL]>
               (<[length out := NUL]> (out ++ drop (length out) (buffer s))))
            (record_args 0 (token_reads 0 NUL true line) (argv s))
            (cnt s) (flags s) (overflow s),
          [])
    else OutOfBounds (length out).
Proof.
  intros [Hb Ha] Hc. cbv zeta.
  set (line := take (cnt s) (buffer s)).
  assert (Hlen : length line = cnt s) by (subst line; rewrite length_take; lia).
  destruct (make_arg_array_loop_eq line 0 (mk_locals 0 true 0 NUL) s)
    as (l' & Hrun & Hargc & Hdest).
  { rewrite drop_0, Hlen. done. }
  { simpl; lia. }
  rewrite Hlen in Hrun. cbn [argc dest quote last_was_space firstn app Nat.add] in *.
  unfold make_arg_array. unfold bind at 1. unfold get.
  unfold bind at 1. rewrite Hrun. clear Hrun.
  pose proof (rewritten_length_le line NUL) as Hle.
  set (out := rewritten NUL line) in *.
  set (s1 := mk_esh _ _ _ _ _).
  assert (Hb1 : length (buffer s1) = ESH_BUFFER_LEN + 1).
  { subst s1. simpl. rewrite length_app, length_drop. lia. }
  rewrite Hdest, Hargc.
  destruct (Nat.leb_spec (length out) ESH_BUFFER_LEN) as [Hin|Hout].
  - unfold bind. rewrite store_ok by lia.
    rewrite store_ok by (cbn [set_buffer buffer]; rewrite length_insert; lia).
    reflexivity.
  - unfold bind. rewrite store_out_of_bounds by lia. reflexivity.
Qed.

(** ** The escape flags *)

Lemma flags_clear (f m : Z) : Z.land f m = 0%Z -> Z.land f (Z.lnot m) = f.
Proof.
  intros H. rewrite <- Z.ldiff_land.
  rewrite <- (Z.lor_ldiff_and f m) at 2. by rewrite H, Z.lor_0_r.
Qed.

Lemma flags_enter_escape (f : Z) :
  Z.land f IN_ESCAPE = 0%Z -> Z.land f IN_BRACKET_ESCAPE = 0%Z ->
  Z.land (Z.lor f IN_ESCAPE) IN_BRACKET_ESCAPE = 0%Z
  /\ Z.land (Z.lor f IN_ESCAPE) IN_ESCAPE = 1%Z
  /\ Z.land (Z.lor f IN_ESCAPE) (Z.lnot IN_ESCAPE) = f.
Proof.
  intros H1 H2. rewrite !Z.land_lor_distr_l, H1, H2.
  rewrite (flags_clear _ _ H1). repeat split.
  change (Z.land IN_ESCAPE (Z.lnot IN_ESCAPE)) with 0%Z. by rewrite Z.lor_0_r.
Qed.

Lemma flags_enter_bracket (f : Z) :
  Z.land f IN_ESCAPE = 0%Z -> Z.land f IN_BRACKET_ESCAPE = 0%Z ->
  Z.land (Z.lor (Z.lor f IN_ESCAPE) IN_BRACKET_ESCAPE) IN_BRACKET_ESCAPE = 2%Z
  /\ Z.land (Z.lor (Z.lor f IN_ESCAPE) IN_BRACKET_ESCAPE)
        (Z.lnot (Z.lor IN_ESCAPE IN_BRACKET_ESCAPE)) = f.
Proof.
  intros H1 H2. rewrite !Z.land_lor_distr_l, H2.
  assert (H3 : Z.land f (Z.lor IN_ESCAPE IN_BRACKET_ESCAPE) = 0%Z)
    by (by rewrite Z.land_lor_distr_r, H1, H2).
  rewrite (flags_clear _ _ H3). split; [reflexivity|].
  change (Z.land IN_ESCAPE (Z.lnot (Z.lor IN_ESCAPE IN_BRACKET_ESCAPE))) with 0%Z.
  change (Z.land IN_BRACKET_ESCAPE (Z.lnot (Z.lor IN_ESCAPE IN_BRACKET_ESCAPE))) with 0%Z.
  by rewrite !Z.lor_0_r.
Qed.

(** ** [esh_rx] outside an escape sequence *)

Lemma esh_rx_no_escape (c : ascii) (s : esh) :
  no_escape s ->
  esh_rx c s =
    if (c =? NUL)%char then Ok (tt, s, [])
    else if (c =? ESC)%char then Ok (tt, set_flags (Z.lor (flags s) IN_ESCAPE) s, [])
    else if (c =? NL)%char then (esh_putc c ;;; execute_command) s
    else handle_char c s.
Proof.
  intros [H1 H2]. unfold esh_rx. unfold bind at 1. unfold get.
  rewrite H1, H2. simpl.
  destruct (c =? NUL)%char; [reflexivity|].
  destruct (c =? ESC)%char; [reflexivity|].
  destruct (c =? NL)%char; unfold bind;
    match goal with |- match ?m with _ => _ end = _ => by destruct m as [[[[] ?] ?]|] end.
Qed.

Lemma esh_rx_plain (c : ascii) (s : esh) :
  no_escape s -> c <> NUL -> c <> ESC -> c <> NL ->
  esh_rx c s = handle_char c s.
Proof.
  intros Hs H1 H2 H3. rewrite esh_rx_no_escape by done.
  destruct (Ascii.eqb_spec c NUL); [done|].
  destruct (Ascii.eqb_spec c ESC); [done|].
  by destruct (Ascii.eqb_spec c NL).
Qed.

Lemma c_string_app_NUL (l r : list ascii) :
  NUL ∉ l -> c_string (l ++ NUL :: r) = l.
Proof.
  induction l as [|c l IH]; intros Hl; simpl; [reflexivity|].
  destruct (Ascii.eqb_spec c NUL) as [->|_].
  - exfalso. apply Hl. by left.
  - f_equal. apply IH. intros H. apply Hl. by right.
Qed.

(** ** The escape filter *)

(** C7: from a state with neither escape flag set, the bytes ESC, '[', 'A'
    fed one at a time leave the whole context (buffer, count, flags)
    as it was and call no hook; and so do ESC followed by any byte other
    than '[' and 'O'. *)
Theorem escape_sequences_are_absorbed (s : esh) :
  no_escape s ->
  feed [ESC; "["; "A"] s = Ok (tt, s, [])
  /\ forall c : ascii, c <> "[" -> c <> "O" -> feed [ESC; c] s = Ok (tt, s, []).
Proof.
  intros [H1 H2].
  destruct (flags_enter_escape _ H1 H2) as (E1 & E2 & E3).
  destruct (flags_enter_bracket _ H1 H2) as (B1 & B2).
  split; [|intros c Hc1 Hc2]; cbn [feed]; unfold bind at 1;
    rewrite esh_rx_no_escape by done; cbn [Ascii.eqb NUL ESC Bool.eqb];
    unfold bind at 1; unfold esh_rx at 1; unfold_m; cbn [flags set_flags];
    rewrite E1, E2; cbn [Z.eqb negb].
  - cbn [Ascii.eqb Bool.eqb orb]. unfold esh_rx. unfold_m. cbn [flags set_flags].
    rewrite B1. cbn [Z.eqb negb]. change (isalpha "A") with true. cbn iota.
    rewrite B2. cbn. by destruct s.
  - destruct (Ascii.eqb_spec c "["); [done|].
    destruct (Ascii.eqb_spec c "O"); [done|].
    cbn [orb]. rewrite E3. cbn. by destruct s.
Qed.

(** ** The line editor *)

Lemma is_bksp_plain (c : ascii) :
  c <> BS -> c <> DEL -> (c =? BS)%char || (c =? DEL)%char = false.
Proof.
  intros H1 H2. destruct (Ascii.eqb_spec c BS); [done|].
  by destruct (Ascii.eqb_spec c DEL).
Qed.

Lemma handle_char_overflow (c : ascii) (s : esh) :
  wf s ->
  ESH_BUFFER_LEN < cnt s \/
    (cnt s = ESH_BUFFER_LEN /\ (c =? BS)%char || (c =? DEL)%char = false) ->
  handle_char c s =
    Ok (tt,
        set_buffer (<[ESH_BUFFER_LEN := NUL]> (buffer s))
          (set_cnt (ESH_BUFFER_LEN + 1) s),
        EvOverflow (<[ESH_BUFFER_LEN := NUL]> (buffer s)) :: handler_output s).
Proof.
  intros [Hb _] Hc. unfold handle_char. unfold bind at 1. unfold get.
  replace (_ || _ && _) with true.
  2:{ destruct Hc as [Hc|[Hc Hk]].
      - by rewrite ltb_true.
      - rewrite Hk, Hc, Nat.eqb_refl. simpl. by rewrite orb_true_r. }
  unfold bind at 1. unfold modify at 1. unfold bind at 1.
  rewrite store_ok by (cbn; lia).
  unfold bind. rewrite call_overflow_eq.
  unfold ret, handler_output. cbn. by rewrite app_nil_r.
Qed.

Lemma handle_char_store (c : ascii) (s : esh) :
  wf s -> cnt s < ESH_BUFFER_LEN -> c <> NUL -> c <> BS -> c <> DEL ->
  handle_char c s =
    Ok (tt, set_cnt (cnt s + 1) (set_buffer (<[cnt s := c]> (buffer s)) s),
        [EvPrint [c]]).
Proof.
  intros [Hb _] Hc H0 H1 H2. unfold handle_char. unfold bind at 1. unfold get.
  rewrite is_bksp_plain by done.
  rewrite ltb_false by lia.
  replace (cnt s =? ESH_BUFFER_LEN) with false by (symmetry; apply Nat.eqb_neq; lia).
  cbn [orb andb]. unfold bind at 1. rewrite esh_putc_eq by done.
  unfold bind. rewrite store_ok by lia. reflexivity.
Qed.

Lemma handle_char_backspace (c : ascii) (s : esh) :
  c = BS \/ c = DEL -> cnt s <= ESH_BUFFER_LEN ->
  handle_char c s =
    if cnt s =? 0 then Ok (tt, s, [])
    else Ok (tt, set_cnt (cnt s - 1) s, [EvPrint [BS; " "; BS]]).
Proof.
  intros Hc Hn. unfold handle_char. unfold bind at 1. unfold get.
  replace ((c =? BS)%char || (c =? DEL)%char) with true by (by destruct Hc as [->| ->]).
  rewrite ltb_false by lia. rewrite andb_false_r. cbn [orb negb].
  by destruct (cnt s =? 0).
Qed.

(** C8: backspace (8 or 127) outside an escape sequence.  With an empty
    line it does nothing; with 0 < count <= ESH_BUFFER_LEN it prints the
    three-byte erase sequence, decrements count by one and calls no handler
    (count == ESH_BUFFER_LEN included); with count == ESH_BUFFER_LEN + 1
    count stays where it is. *)
Theorem backspace_behaviour (s : esh) (c : ascii) :
  no_escape s ->
  c = BS \/ c = DEL ->
  (cnt s = 0 -> esh_rx c s = Ok (tt, s, []))
  /\ (0 < cnt s <= ESH_BUFFER_LEN ->
      esh_rx c s = Ok (tt, set_cnt (cnt s - 1) s, [EvPrint [BS; " "; BS]]))
  /\ (wf s -> cnt s = ESH_BUFFER_LEN + 1 ->
      exists s' t, esh_rx c s = Ok (tt, s', t) /\ cnt s' = ESH_BUFFER_LEN + 1).
Proof.
  intros Hs Hc.
  assert (Hrx : esh_rx c s = handle_char c s).
  { apply esh_rx_plain; [done|..]; by destruct Hc as [->| ->]. }
  rewrite Hrx. split; [|split].
  - intros H0. rewrite handle_char_backspace by (done || lia). by rewrite H0.
  - intros [H0 H1]. rewrite handle_char_backspace by done.
    destruct (Nat.eqb_spec (cnt s) 0); [lia|done].
  - intros Hwf Hn. rewrite handle_char_overflow by (done || (left; lia)).
    by eexists _, _.
Qed.

(** C5: with the buffer exactly full and no escape pending, one more plain
    byte calls the overflow handler once, with the buffer NUL-terminated at
    index ESH_BUFFER_LEN and its first ESH_BUFFER_LEN bytes untouched; count
    becomes ESH_BUFFER_LEN + 1; the byte is neither stored nor echoed.  Any
    further plain byte leaves that state exactly as it is. *)
Theorem overflow_at_capacity (s : esh) (c : ascii) :
  wf s -> no_escape s -> cnt s = ESH_BUFFER_LEN -> plain c ->
  let b := <[ESH_BUFFER_LEN := NUL]> (buffer s) in
  let s' := set_buffer b (set_cnt (ESH_BUFFER_LEN + 1) s) in
  esh_rx c s = Ok (tt, s', EvOverflow b :: handler_output s)
  /\ (forall e, e ∈ handler_output s -> exists m, e = EvPrint m)
  /\ b !! ESH_BUFFER_LEN = Some NUL
  /\ take ESH_BUFFER_LEN b = take ESH_BUFFER_LEN (buffer s)
  /\ (NUL ∉ take ESH_BUFFER_LEN (buffer s) ->
      c_string b = take ESH_BUFFER_LEN (buffer s))
  /\ (forall c' : ascii, plain c' ->
        esh_rx c' s' = Ok (tt, s', EvOverflow b :: handler_output s)).
Proof.
  intros Hwf Hs Hn (H0 & H1 & H2 & H3 & H4) b s'.
  pose proof Hwf as [Hb Ha].
  split; [|split; [|split; [|split; [|split]]]].
  - rewrite esh_rx_plain by done.
    apply handle_char_overflow; [done|]. right. split; [done|].
    by apply is_bksp_plain.
  - unfold handler_output. destruct (overflow s).
    + intros e He. apply list_elem_of_fmap in He as (x & -> & _). by eexists.
    + intros e He. by apply elem_of_nil in He.
  - apply list_lookup_insert_eq. lia.
  - subst b. by rewrite take_insert_ge.
  - intros Hnul. subst b. rewrite insert_take_drop by lia.
    by apply c_string_app_NUL.
  - intros c' (H0' & H1' & H2' & H3' & H4').
    assert (Hwf' : wf s').
    { subst s' b. split; cbn; [by rewrite length_insert|done]. }
    rewrite esh_rx_plain by done.
    rewrite handle_char_overflow by (done || (left; cbn; lia)).
    subst s' b. unfold set_buffer, set_cnt, handler_output. cbn.
    by rewrite list_insert_insert_eq.
Qed.

(** ** Recording the argument pointers *)

Lemma record_args_length (ptrs : list nat) :
  forall k av, length (record_args k ptrs av) = length av.
Proof.
  induction ptrs as [|p ptrs IH]; intros k av; simpl; [done|].
  rewrite IH. destruct (k <? ESH_ARGC_MAX); by rewrite ?length_insert.
Qed.

Lemma record_args_lookup_lt (ptrs : list nat) :
  forall k av j, j < k -> record_args k ptrs av !! j = av !! j.
Proof.
  induction ptrs as [|p ptrs IH]; intros k av j Hj; simpl; [done|].
  rewrite IH by lia. destruct (k <? ESH_ARGC_MAX); [|done].
  apply list_lookup_insert_ne. lia.
Qed.

Lemma record_args_lookup_ge (ptrs : list nat) :
  forall k av j, k + length ptrs <= j -> record_args k ptrs av !! j = av !! j.
Proof.
  induction ptrs as [|p ptrs IH]; intros k av j Hj; simpl in *; [done|].
  rewrite IH by lia. destruct (k <? ESH_ARGC_MAX); [|done].
  apply list_lookup_insert_ne. lia.
Qed.

Lemma record_args_lookup_max (ptrs : list nat) :
  forall k av j, ESH_ARGC_MAX <= j -> record_args k ptrs av !! j = av !! j.
Proof.
  induction ptrs as [|p ptrs IH]; intros k av j Hj; simpl in *; [done|].
  rewrite IH by lia. destruct (Nat.ltb_spec k ESH_ARGC_MAX); [|done].
  apply list_lookup_insert_ne. lia.
Qed.

Lemma record_args_lookup_stored (ptrs : list nat) :
  forall k av m p,
    length av = ESH_ARGC_MAX -> ptrs !! m = Some p -> k + m < ESH_ARGC_MAX ->
    record_args k ptrs av !! (k + m) = Some (Some p).
Proof.
  induction ptrs as [|p0 ptrs IH]; intros k av m p Hav Hm Hk; [done|].
  destruct m as [|m]; simpl in *.
  - injection Hm as ->. rewrite Nat.add_0_r in *.
    rewrite record_args_lookup_lt by lia.
    rewrite ltb_true by lia. apply list_lookup_insert_eq. lia.
  - replace (k + S m) with (S k + m) by lia.
    apply IH; [|done|lia].
    destruct (k <? ESH_ARGC_MAX); by rewrite ?length_insert.
Qed.

(** ** Dispatch *)

Lemma execute_command_eq (s s1 : esh) (n : nat) :
  make_arg_array s = Ok (n, s1, []) ->
  execute_command s =
    Ok (tt, set_cnt 0 s1, dispatch_output n s1 ++ prompt_output).
Proof.
  intros Hrun. unfold execute_command, dispatch_output, print_prompt, prompt_output.
  unfold bind at 1. rewrite Hrun.
  destruct (ESH_ARGC_MAX <? n); [|destruct (0 <? n)];
    unfold bind, call_callback; rewrite ?call_overflow_eq; unfold_m;
    rewrite esh_puts_F_eq; cbn [app]; by rewrite ?app_nil_r.
Qed.

(** C1: a newline outside an escape sequence.  Whenever the tokenizer
    returns (it always does while count <= ESH_BUFFER_LEN), the count it
    returns is the number of tokens of the line, not capped at
    ESH_ARGC_MAX; pointers are stored for the first ESH_ARGC_MAX tokens only
    and the other slots of argv keep what they held; the buffer is the
    rewritten one.  Then: more than ESH_ARGC_MAX tokens call the overflow
    handler with that buffer and not the callback; between 1 and
    ESH_ARGC_MAX tokens call the callback with (argc, argv); no token calls
    neither.  In each case count is reset to 0 and the prompt is printed. *)
Theorem newline_dispatch (s : esh) :
  wf s -> no_escape s -> cnt s <= ESH_BUFFER_LEN + 1 ->
  let line := take (cnt s) (buffer s) in
  let out := rewritten NUL line in
  (cnt s <= ESH_BUFFER_LEN -> exists n s1, make_arg_array s = Ok (n, s1, []))
  /\ forall n s1 t1,
      make_arg_array s = Ok (n, s1, t1) ->
      n = token_count NUL true line
      /\ t1 = []
      /\ buffer s1 =
           <[ESH_BUFFER_LEN := NUL]>
             (<[length out := NUL]> (out ++ drop (length out) (buffer s)))
      /\ length (argv s1) = ESH_ARGC_MAX
      /\ (forall k, k < n -> k < ESH_ARGC_MAX ->
            exists p, argv s1 !! k = Some (Some p))
      /\ (forall k, n <= k \/ ESH_ARGC_MAX <= k -> argv s1 !! k = argv s !! k)
      /\ esh_rx NL s =
           Ok (tt, set_cnt 0 s1,
               EvPrint [NL]
                 :: (if ESH_ARGC_MAX <? n
                     then EvOverflow (buffer s1) :: handler_output s1
                     else if 0 <? n
                          then [EvCallback n (argv s1) (buffer s1)]
                          else [])
                 ++ prompt_output).
Proof.
  intros Hwf Hs Hc line out.
  pose proof (make_arg_array_eq s Hwf Hc) as Heq. cbv zeta in Heq.
  fold line in Heq. fold out in Heq.
  pose proof (rewritten_length_le line NUL) as Hle. fold out in Hle.
  assert (Hlen : length line = cnt s) by (subst line; rewrite length_take; destruct Hwf; lia).
  split.
  - intros Hc'. rewrite Heq. rewrite (proj2 (Nat.leb_le _ _)) by lia. by eexists _, _.
  - intros n s1 t1 Hrun. rewrite Hrun in Heq.
    destruct (length out <=? ESH_BUFFER_LEN); [|discriminate].
    injection Heq as -> -> ->. cbn [buffer argv].
    pose proof (token_reads_length line 0 NUL true) as Hreads.
    destruct Hwf as [Hb Ha].
    split; [done|]. split; [done|]. split; [done|].
    split; [by rewrite record_args_length|].
    split; [|split].
    + intros k Hk1 Hk2.
      destruct (lookup_lt_is_Some_2 (token_reads 0 NUL true line) k) as [p Hp]; [lia|].
      exists p. by apply (record_args_lookup_stored _ 0 _ k p).
    + intros k [Hk|Hk].
      * apply record_args_lookup_ge. lia.
      * by apply record_args_lookup_max.
    + rewrite esh_rx_no_escape by done. cbn [Ascii.eqb NL NUL ESC Bool.eqb].
      unfold bind. rewrite esh_putc_eq by done.
      erewrite execute_command_eq by exact Hrun. reflexivity.
Qed.

(** ** What every reachable state satisfies *)

Lemma execute_command_unfold (s : esh) :
  execute_command s =
    match make_arg_array s with
    | Ok (n, s1, t1) =>
        Ok (tt, set_cnt 0 s1, t1 ++ dispatch_output n s1 ++ prompt_output)
    | OutOfBounds i => OutOfBounds i
    end.
Proof.
  unfold execute_command, dispatch_output, print_prompt, prompt_output.
  unfold bind at 1. destruct (make_arg_array s) as [[[n s1] t1]|i]; [|done].
  destruct (ESH_ARGC_MAX <? n); [|destruct (0 <? n)];
    unfold bind, call_callback; rewrite ?call_overflow_eq; unfold_m;
    rewrite esh_puts_F_eq; cbn [app]; by rewrite ?app_nil_r.
Qed.

Lemma esh_rx_cases (c : ascii) (s : esh) :
  (exists f, esh_rx c s = Ok (tt, set_flags f s, []))
  \/ (no_escape s /\ c <> NUL /\ c <> ESC
      /\ esh_rx c s =
           if (c =? NL)%char then (esh_putc c ;;; execute_command) s
           else handle_char c s).
Proof.
  assert (Hid : forall r : esh, r = set_flags (flags r) r) by (by intros []).
  destruct (Z.eq_dec (Z.land (flags s) IN_BRACKET_ESCAPE) 0%Z) as [H2|H2].
  - destruct (Z.eq_dec (Z.land (flags s) IN_ESCAPE) 0%Z) as [H1|H1].
    + assert (Hs : no_escape s) by done.
      rewrite (esh_rx_no_escape c s Hs).
      destruct (Ascii.eqb_spec c NUL) as [->|H0].
      { left. exists (flags s). by rewrite <- Hid. }
      destruct (Ascii.eqb_spec c ESC) as [->|H3]; [left; by eexists|].
      right. done.
    + left. unfold esh_rx. unfold_m. rewrite H2.
      apply Z.eqb_neq in H1. rewrite H1. cbn [Z.eqb negb].
      destruct ((c =? "[")%char || (c =? "O")%char); by eexists.
  - left. unfold esh_rx. unfold_m.
    apply Z.eqb_neq in H2. rewrite H2. cbn [negb].
    destruct (isalpha c); [by eexists|].
    exists (flags s). by rewrite <- Hid.
Qed.

Lemma handle_char_cases (c : ascii) (s : esh) :
  wf s -> c <> NUL ->
  (handle_char c s =
     Ok (tt,
         set_buffer (<[ESH_BUFFER_LEN := NUL]> (buffer s))
           (set_cnt (ESH_BUFFER_LEN + 1) s),
         EvOverflow (<[ESH_BUFFER_LEN := NUL]> (buffer s)) :: handler_output s)
   /\ ESH_BUFFER_LEN <= cnt s)
  \/ (handle_char c s =
        Ok (tt, set_cnt (cnt s + 1) (set_buffer (<[cnt s := c]> (buffer s)) s),
            [EvPrint [c]])
      /\ cnt s < ESH_BUFFER_LEN)
  \/ (exists n, handle_char c s = Ok (tt, set_cnt n s, if cnt s =? 0 then [] else [EvPrint [BS; " "; BS]])
      /\ n <= cnt s /\ cnt s <= ESH_BUFFER_LEN).
Proof.
  intros Hwf H0.
  destruct ((c =? BS)%char || (c =? DEL)%char) eqn:Hk.
  - assert (Hb : c = BS \/ c = DEL).
    { apply orb_true_iff in Hk as [Hk|Hk]; apply Ascii.eqb_eq in Hk; auto. }
    destruct (le_lt_dec (cnt s) ESH_BUFFER_LEN) as [Hn|Hn].
    + right; right. rewrite handle_char_backspace by done.
      destruct (Nat.eqb_spec (cnt s) 0).
      * exists (cnt s). split; [by destruct s|lia].
      * exists (cnt s - 1). split; [done|lia].
    + left. split; [|lia]. apply handle_char_overflow; [done|]. by left.
  - assert (c <> BS /\ c <> DEL) as [H1 H2].
    { apply orb_false_iff in Hk as [Hk1 Hk2].
      split; intros ->; discriminate. }
    destruct (le_lt_dec ESH_BUFFER_LEN (cnt s)) as [Hn|Hn].
    + left. split; [|done]. apply handle_char_overflow; [done|].
      destruct (Nat.eq_dec (cnt s) ESH_BUFFER_LEN); [right|left; lia].
      split; done.
    + right; left. split; [|done]. by apply handle_char_store.
Qed.

Lemma inv_esh_rx (c : ascii) (s s' : esh) (t : list event) :
  inv s -> esh_rx c s = Ok (tt, s', t) -> inv s'.
Proof.
  intros (Hwf & Hc & Hnul & Hline) Hrx.
  destruct (esh_rx_cases c s) as [[f Hf]|(Hs & H0 & H1 & Heq)].
  { rewrite Hf in Hrx. injection Hrx as <- <-. done. }
  rewrite Heq in Hrx. clear Heq.
  destruct (c =? NL)%char.
  - unfold bind in Hrx. rewrite esh_putc_eq in Hrx by done.
    rewrite execute_command_unfold in Hrx.
    rewrite make_arg_array_eq in Hrx by done. cbv zeta in Hrx.
    destruct (_ <=? _); [|discriminate].
    injection Hrx as <- <-. destruct Hwf as [Hb Ha].
    split; [split|]; cbn.
    + rewrite !length_insert, length_app, length_drop.
      pose proof (rewritten_length_le (take (cnt s) (buffer s)) NUL) as Hle.
      rewrite length_take in Hle. lia.
    + by rewrite record_args_length.
    + split; [lia|]. split; [lia|]. apply not_elem_of_nil.
  - pose proof Hwf as [Hb Ha].
    destruct (handle_char_cases c s Hwf H0)
      as [[Hh Hn]|[[Hh Hn]|(n & Hh & Hn1 & Hn2)]];
      rewrite Hh in Hrx; injection Hrx as <- <-; cbn.
    + split; [split; cbn; by rewrite ?length_insert|].
      split; [cbn; lia|]. split; cbn.
      * intros _. apply list_lookup_insert_eq. lia.
      * replace ((ESH_BUFFER_LEN + 1) `min` ESH_BUFFER_LEN) with ESH_BUFFER_LEN by lia.
        rewrite take_insert_ge by lia.
        by replace (cnt s `min` ESH_BUFFER_LEN) with ESH_BUFFER_LEN in Hline by lia.
    + split; [split; cbn; by rewrite ?length_insert|].
      split; [cbn; lia|]. split; cbn; [lia|].
      replace ((cnt s + 1) `min` ESH_BUFFER_LEN) with (S (cnt s)) by lia.
      replace (cnt s `min` ESH_BUFFER_LEN) with (cnt s) in Hline by lia.
      rewrite (take_S_r _ _ c) by (apply list_lookup_insert_eq; lia).
      rewrite take_insert_ge by lia.
      intros [H|H]%elem_of_app; [done|]. apply list_elem_of_singleton in H. done.
    + split; [done|]. split; [cbn; lia|]. split; cbn; [lia|].
      intros H. apply Hline.
      replace (n `min` ESH_BUFFER_LEN) with n in H by lia.
      replace (cnt s `min` ESH_BUFFER_LEN) with (cnt s) by lia.
      apply list_elem_of_lookup in H as [j Hj].
      apply list_elem_of_lookup. exists j.
      apply lookup_take_Some in Hj as [Hj1 Hj2].
      apply lookup_take_Some. split; [done|lia].
Qed.

Lemma inv_init : inv esh_init.
Proof.
  unfold inv, wf, esh_init. cbn. rewrite !length_replicate.
  split; [done|]. split; [lia|]. split; [lia|]. apply not_elem_of_nil.
Qed.

Theorem reachable_inv (s : esh) : reachable s -> inv s.
Proof.
  induction 1 as [|h s _ IH|c s s' t _ IH Hrx].
  - apply inv_init.
  - exact IH.
  - by eapply inv_esh_rx.
Qed.

(** ** [esh_rx] and [handle_char] as functions of the context *)

Lemma esh_rx_filter (c : ascii) (s : esh) :
  esh_rx c s =
    match escape_filter (flags s) c with
    | Some f => Ok (tt, set_flags f s, [])
    | None =>
        if (c =? NL)%char then (esh_putc c ;;; execute_command) s
        else handle_char c s
    end.
Proof.
  assert (Hid : forall r : esh, r = set_flags (flags r) r) by (by intros []).
  unfold esh_rx, escape_filter. unfold bind at 1. unfold get.
  destruct (negb (Z.land (flags s) IN_BRACKET_ESCAPE =? 0)%Z).
  { destruct (isalpha c); [done|]. unfold ret. by rewrite <- Hid. }
  destruct (negb (Z.land (flags s) IN_ESCAPE =? 0)%Z).
  { by destruct ((c =? "[")%char || (c =? "O")%char). }
  destruct (c =? NUL)%char. { unfold ret. by rewrite <- Hid. }
  destruct (c =? ESC)%char; [done|].
  destruct (c =? NL)%char; unfold bind;
    match goal with |- match ?m with _ => _ end = _ => by destruct m as [[[[] ?] ?]|] end.
Qed.

Lemma escape_filter_None (f : Z) (c : ascii) :
  escape_filter f c = None ->
  Z.land f IN_ESCAPE = 0%Z /\ Z.land f IN_BRACKET_ESCAPE = 0%Z
  /\ c <> NUL /\ c <> ESC.
Proof.
  unfold escape_filter.
  destruct (Z.eqb_spec (Z.land f IN_BRACKET_ESCAPE) 0); [|done].
  destruct (Z.eqb_spec (Z.land f IN_ESCAPE) 0); [|done]. cbn [negb].
  destruct (Ascii.eqb_spec c NUL); [done|].
  destruct (Ascii.eqb_spec c ESC); done.
Qed.

Lemma escape_filter_high (f f' : Z) (c : ascii) :
  escape_filter f c = Some f' -> Z.shiftr f' 2 = Z.shiftr f 2.
Proof.
  unfold escape_filter. intros H.
  repeat match type of H with
         | (if ?b then _ else _) = _ => destruct b
         | Some (if ?b then _ else _) = _ => destruct b
         end; try discriminate; injection H as <-; try reflexivity;
    rewrite ?Z.shiftr_land, ?Z.shiftr_lor;
    change (Z.shiftr (Z.lnot (Z.lor IN_ESCAPE IN_BRACKET_ESCAPE)) 2) with (-1)%Z;
    change (Z.shiftr (Z.lnot IN_ESCAPE) 2) with (-1)%Z;
    change (Z.shiftr IN_ESCAPE 2) with 0%Z;
    change (Z.shiftr IN_BRACKET_ESCAPE 2) with 0%Z;
    by rewrite ?Z.land_m1_r, ?Z.lor_0_r.
Qed.

Lemma no_escape_flags (f : Z) :
  Z.land f IN_ESCAPE = 0%Z -> Z.land f IN_BRACKET_ESCAPE = 0%Z ->
  f = Z.shiftl (Z.shiftr f 2) 2.
Proof.
  intros H1 H2.
  assert (H3 : Z.land f (Z.ones 2) = 0%Z).
  { change (Z.ones 2) with (Z.lor IN_ESCAPE IN_BRACKET_ESCAPE).
    by rewrite Z.land_lor_distr_r, H1, H2. }
  rewrite <- Z.ldiff_ones_r by lia.
  rewrite <- (Z.lor_ldiff_and f (Z.ones 2)) at 1. by rewrite H3, Z.lor_0_r.
Qed.

Lemma handle_char_eq (c : ascii) (s : esh) :
  wf s -> c <> NUL ->
  handle_char c s =
    let is_bksp := (c =? BS)%char || (c =? DEL)%char in
    if (ESH_BUFFER_LEN <? cnt s) || ((cnt s =? ESH_BUFFER_LEN) && negb is_bksp) then
      Ok (tt,
          set_buffer (<[ESH_BUFFER_LEN := NUL]> (buffer s))
            (set_cnt (ESH_BUFFER_LEN + 1) s),
          EvOverflow (<[ESH_BUFFER_LEN := NUL]> (buffer s)) :: handler_output s)
    else if is_bksp then
      (if cnt s =? 0 then Ok (tt, s, [])
       else Ok (tt, set_cnt (cnt s - 1) s, [EvPrint [BS; " "; BS]]))
    else
      Ok (tt, set_cnt (cnt s + 1) (set_buffer (<[cnt s := c]> (buffer s)) s),
          [EvPrint [c]]).
Proof.
  intros Hwf H0. cbv zeta.
  destruct (Nat.ltb_spec ESH_BUFFER_LEN (cnt s)) as [Hn|Hn]; cbn [orb].
  { apply handle_char_overflow; [done|]. by left. }
  destruct ((c =? BS)%char || (c =? DEL)%char) eqn:Hk; cbn [negb].
  - rewrite andb_false_r. apply handle_char_backspace; [|done].
    apply orb_true_iff in Hk as [Hk|Hk]; apply Ascii.eqb_eq in Hk; auto.
  - rewrite andb_true_r.
    destruct (Nat.eqb_spec (cnt s) ESH_BUFFER_LEN) as [He|He].
    + apply handle_char_overflow; [done|]. by right.
    + apply orb_false_iff in Hk as [Hk1 Hk2].
      apply handle_char_store; [done|lia|done|..]; intros ->; discriminate.
Qed.

Lemma esh_rx_frame (c : ascii) (s s' : esh) (t : list event) :
  inv s -> esh_rx c s = Ok (tt, s', t) ->
  overflow s' = overflow s /\ Z.shiftr (flags s') 2 = Z.shiftr (flags s) 2
  /\ (no_escape s -> no_escape s' -> flags s' = flags s).
Proof.
  intros (Hwf & Hc & _) Hrx.
  assert (H : overflow s' = overflow s /\ Z.shiftr (flags s') 2 = Z.shiftr (flags s) 2).
  { rewrite esh_rx_filter in Hrx.
    destruct (escape_filter (flags s) c) as [f|] eqn:Hf.
    { injection Hrx as <- <-. split; [done|]. by eapply escape_filter_high. }
    apply escape_filter_None in Hf as (_ & _ & H0 & _).
    destruct (c =? NL)%char.
    - unfold bind in Hrx. rewrite esh_putc_eq in Hrx by done.
      rewrite execute_command_unfold in Hrx.
      rewrite make_arg_array_eq in Hrx by done. cbv zeta in Hrx.
      destruct (_ <=? _); [|discriminate]. by injection Hrx as <- <-.
    - rewrite handle_char_eq in Hrx by done. cbv zeta in Hrx.
      repeat match type of Hrx with
             | (if ?b then _ else _) = _ => destruct b
             end; by injection Hrx as <- <-. }
  destruct H as [H1 H2]. split; [done|]. split; [done|].
  intros [A1 A2] [B1 B2].
  rewrite (no_escape_flags _ A1 A2), (no_escape_flags _ B1 B2). by rewrite H2.
Qed.

(** ** Feeding several bytes *)

Lemma feed_cons (c : ascii) (cs : list ascii) (s : esh) :
  feed (c :: cs) s =
    match esh_rx c s with
    | Ok (_, s1, t1) =>
        match feed cs s1 with
        | Ok (_, s2, t2) => Ok (tt, s2, t1 ++ t2)
        | OutOfBounds i => OutOfBounds i
        end
    | OutOfBounds i => OutOfBounds i
    end.
Proof.
  cbn [feed]. unfold bind. destruct (esh_rx c s) as [[[[] s1] t1]|]; [|done].
  by destruct (feed cs s1) as [[[[] s2] t2]|].
Qed.

Lemma feed_app (xs ys : list ascii) :
  forall s,
    feed (xs ++ ys) s =
      match feed xs s with
      | Ok (_, s1, t1) =>
          match feed ys s1 with
          | Ok (_, s2, t2) => Ok (tt, s2, t1 ++ t2)
          | OutOfBounds i => OutOfBounds i
          end
      | OutOfBounds i => OutOfBounds i
      end.
Proof.
  induction xs as [|c xs IH]; intros s.
  - cbn. unfold ret. by destruct (feed ys s) as [[[[] s2] t2]|].
  - rewrite <- app_comm_cons, !feed_cons.
    destruct (esh_rx c s) as [[[[] s1] t1]|]; [|done].
    rewrite IH. destruct (feed xs s1) as [[[[] s2] t2]|]; [|done].
    destruct (feed ys s2) as [[[[] s3] t3]|]; [|done].
    by rewrite app_assoc.
Qed.

Lemma feed_single (c : ascii) (s : esh) : feed [c] s = esh_rx c s.
Proof.
  rewrite feed_cons. destruct (esh_rx c s) as [[[[] s1] t1]|]; [|done].
  cbn. by rewrite app_nil_r.
Qed.

Lemma feed_frame (cs : list ascii) :
  forall s s' t,
    inv s -> feed cs s = Ok (tt, s', t) ->
    inv s' /\ overflow s' = overflow s
    /\ Z.shiftr (flags s') 2 = Z.shiftr (flags s) 2.
Proof.
  induction cs as [|c cs IH]; intros s s' t Hinv Hrun.
  - injection Hrun as <- <-. done.
  - rewrite feed_cons in Hrun.
    destruct (esh_rx c s) as [[[[] s1] t1]|] eqn:Hrx; [|done].
    destruct (feed cs s1) as [[[[] s2] t2]|] eqn:Hrest; [|done].
    injection Hrun as <- <-.
    pose proof (inv_esh_rx _ _ _ _ Hinv Hrx) as Hinv1.
    destruct (esh_rx_frame _ _ _ _ Hinv Hrx) as (Ho & Hf & _).
    destruct (IH _ _ _ Hinv1 Hrest) as (Hinv2 & Ho2 & Hf2).
    split; [done|]. split; congruence.
Qed.

(** ** Replaying a line *)

Lemma insert_terminator_eq (A B : list ascii) (n : nat) :
  length A = ESH_BUFFER_LEN + 1 -> length B = ESH_BUFFER_LEN + 1 ->
  ESH_BUFFER_LEN <= n -> take n A = take n B ->
  <[ESH_BUFFER_LEN := NUL]> A = <[ESH_BUFFER_LEN := NUL]> B.
Proof.
  intros HA HB Hn Ht. apply list_eq. intros p.
  rewrite !list_lookup_insert, HA, HB.
  case_decide; [done|].
  destruct (le_lt_dec ESH_BUFFER_LEN p).
  - rewrite !lookup_ge_None_2 by lia. done.
  - rewrite <- (lookup_take_lt A n), <- (lookup_take_lt B n) by lia. by rewrite Ht.
Qed.

Lemma replay_step (F : list ascii) (Aa Ab : list (option nat))
      (a b a' : esh) (c : ascii) (t : list event) :
  replay_rel F Aa Ab a b -> c <> NL ->
  esh_rx c a = Ok (tt, a', t) ->
  exists b', esh_rx c b = Ok (tt, b', t) /\ replay_rel F Aa Ab a' b'.
Proof.
  intros (Hwa & Hwb & Hc & Hf & Ho & Haa & Hab & Ht & Hp) Hnl Hrx.
  pose proof Hwa as [Hla Hma]. pose proof Hwb as [Hlb Hmb].
  rewrite esh_rx_filter in Hrx |- *. rewrite <- Hf.
  destruct (escape_filter (flags a) c) as [f|] eqn:He.
  { injection Hrx as <- <-. eexists. split; [done|].
    unfold replay_rel. cbn. done. }
  apply escape_filter_None in He as (_ & _ & H0 & _).
  destruct (Ascii.eqb_spec c NL); [done|].
  rewrite handle_char_eq in Hrx |- * by done. cbv zeta in Hrx |- *.
  rewrite <- Hc.
  destruct (_ || _ && _) eqn:Hover.
  - assert (Hn : ESH_BUFFER_LEN <= cnt a).
    { apply orb_true_iff in Hover as [H|H].
      - apply Nat.ltb_lt in H. lia.
      - apply andb_true_iff in H as [H _]. apply Nat.eqb_eq in H. lia. }
    assert (HI : <[ESH_BUFFER_LEN := NUL]> (buffer b) = <[ESH_BUFFER_LEN := NUL]> (buffer a)).
    { symmetry. by eapply insert_terminator_eq. }
    injection Hrx as <- <-.
    exists (set_buffer (<[ESH_BUFFER_LEN := NUL]> (buffer a))
              (set_cnt (ESH_BUFFER_LEN + 1) b)).
    split.
    { unfold handler_output. by rewrite HI, Ho. }
    unfold replay_rel, wf. cbn. rewrite !length_insert.
    repeat split; try done; try lia. intros p. by left.
  - revert Hrx.
    destruct ((c =? BS)%char || (c =? DEL)%char); [destruct (cnt a =? 0)|];
      intros Hrx;
      injection Hrx as <- <-;
      (eexists; split; [reflexivity|]); unfold replay_rel, wf; cbn.
    + done.
    + repeat split; try done.
      assert (E : forall X : list ascii,
                 take (cnt a - 1) X = take (cnt a - 1) (take (cnt a) X)).
      { intros X. rewrite take_take. f_equal. lia. }
      by rewrite (E (buffer a)), (E (buffer b)), Ht.
    + assert (Hn : cnt a < ESH_BUFFER_LEN).
      { apply orb_false_iff in Hover as [H1 H2]. apply Nat.ltb_ge in H1.
        rewrite andb_true_r in H2. apply Nat.eqb_neq in H2. lia. }
      rewrite !length_insert. repeat split; try done; try lia.
      * replace (cnt a + 1) with (S (cnt a)) by lia.
        rewrite !(take_S_r _ _ c) by (apply list_lookup_insert_eq; lia).
        rewrite !take_insert_ge by lia. by rewrite Ht.
      * intros p. destruct (Nat.eq_dec p (cnt a)) as [->|Hne].
        -- left. by rewrite !list_lookup_insert_eq by lia.
        -- rewrite !list_lookup_insert_ne by done. apply Hp.
Qed.

Lemma replay_feed (F : list ascii) (Aa Ab : list (option nat)) (cs : list ascii) :
  forall a b a' t,
    replay_rel F Aa Ab a b -> NL ∉ cs ->
    feed cs a = Ok (tt, a', t) ->
    exists b', feed cs b = Ok (tt, b', t) /\ replay_rel F Aa Ab a' b'.
Proof.
  induction cs as [|c cs IH]; intros a b a' t Hrel Hnl Hrun.
  - injection Hrun as <- <-. by exists b.
  - rewrite feed_cons in Hrun.
    destruct (esh_rx c a) as [[[[] a1] t1]|] eqn:Hrx; [|done].
    destruct (feed cs a1) as [[[[] a2] t2]|] eqn:Hrest; [|done].
    injection Hrun as <- <-.
    apply not_elem_of_cons in Hnl as [Hc Hnl].
    assert (Hc' : c <> NL) by congruence.
    destruct (replay_step _ _ _ _ _ _ _ _ Hrel Hc' Hrx) as (b1 & Hrx' & Hrel1).
    destruct (IH _ _ _ _ Hrel1 Hnl Hrest) as (b2 & Hrest' & Hrel2).
    exists b2. split; [|done]. by rewrite feed_cons, Hrx', Hrest'.
Qed.

Lemma record_args_idem (ptrs : list nat) (av : list (option nat)) :
  length av = ESH_ARGC_MAX ->
  record_args 0 ptrs (record_args 0 ptrs av) = record_args 0 ptrs av.
Proof.
  intros Hav. apply list_eq. intros j.
  destruct (le_lt_dec (length ptrs) j) as [Hj|Hj].
  { by rewrite record_args_lookup_ge by (simpl; lia). }
  destruct (le_lt_dec ESH_ARGC_MAX j) as [Hm|Hm].
  { by rewrite record_args_lookup_max by lia. }
  destruct (lookup_lt_is_Some_2 ptrs j Hj) as [p Hp].
  rewrite (record_args_lookup_stored ptrs 0 _ j p); [| |done|simpl; lia].
  - by rewrite (record_args_lookup_stored ptrs 0 _ j p).
  - by rewrite record_args_length.
Qed.

Lemma overlay_lookup (out X : list ascii) (p : nat) :
  length X = ESH_BUFFER_LEN + 1 -> length out <= ESH_BUFFER_LEN ->
  <[ESH_BUFFER_LEN := NUL]>
    (<[length out := NUL]> (out ++ drop (length out) X)) !! p =
    if decide (p = ESH_BUFFER_LEN) then Some NUL
    else if decide (p = length out) then Some NUL
    else if decide (p < length out) then out !! p
    else X !! p.
Proof.
  intros HX Hout.
  assert (Hlen : length (out ++ drop (length out) X) = ESH_BUFFER_LEN + 1).
  { rewrite length_app, length_drop. lia. }
  rewrite !list_lookup_insert, length_insert, Hlen.
  repeat case_decide; try done; try lia.
  - by rewrite lookup_app_l by lia.
  - rewrite lookup_app_r by lia. rewrite lookup_drop. f_equal. lia.
Qed.

Lemma overlay_replay (out A B : list ascii) :
  length A = ESH_BUFFER_LEN + 1 -> length B = ESH_BUFFER_LEN + 1 ->
  length out <= ESH_BUFFER_LEN ->
  (forall p, B !! p = A !! p \/
             B !! p = <[ESH_BUFFER_LEN := NUL]>
                        (<[length out := NUL]> (out ++ drop (length out) A)) !! p) ->
  <[ESH_BUFFER_LEN := NUL]> (<[length out := NUL]> (out ++ drop (length out) B)) =
  <[ESH_BUFFER_LEN := NUL]> (<[length out := NUL]> (out ++ drop (length out) A)).
Proof.
  intros HA HB Hout Hp. apply list_eq. intros p.
  specialize (Hp p). rewrite overlay_lookup in Hp by done.
  rewrite !overlay_lookup by done.
  repeat case_decide; try done. by destruct Hp.
Qed.

Lemma esh_rx_newline (s : esh) :
  wf s -> cnt s <= ESH_BUFFER_LEN + 1 -> no_escape s ->
  esh_rx NL s =
    let line := take (cnt s) (buffer s) in
    let out := rewritten NUL line in
    let s' :=
      mk_esh
        (<[ESH_BUFFER_LEN := NUL]>
           (<[length out := NUL]> (out ++ drop (length out) (buffer s))))
        (record_args 0 (token_reads 0 NUL true line) (argv s))
        0 (flags s) (overflow s) in
    if length out <=? ESH_BUFFER_LEN then
      Ok (tt, s',
          EvPrint [NL]
            :: dispatch_output (token_count NUL true line) s' ++ prompt_output)
    else OutOfBounds (length out).
Proof.
  intros Hwf Hc Hs. rewrite esh_rx_no_escape by done.
  cbn [Ascii.eqb NL NUL ESC Bool.eqb]. unfold bind.
  rewrite esh_putc_eq by done. rewrite execute_command_unfold.
  rewrite make_arg_array_eq by done. cbv zeta.
  by destruct (_ <=? _).
Qed.

(** C9, as the code has it: a line is replayed from a state with an empty
    line and no escape pending.  When the line holds no newline byte and
    leaves the escape filter with no escape pending, so that the newline
    after it runs the command, feeding the same bytes and the newline a
    second time ends in the same context and makes the same calls, in the
    same order and with the same arguments (argc, the argv array, the buffer
    the pointers refer to) as the first time. *)
Theorem line_replay (s0 sL s1 : esh) (L : list ascii) (tL t1 : list event) :
  wf s0 -> cnt s0 = 0 -> no_escape s0 ->
  NL ∉ L ->
  feed L s0 = Ok (tt, sL, tL) -> no_escape sL ->
  feed (L ++ [NL]) s0 = Ok (tt, s1, t1) ->
  feed (L ++ [NL]) s1 = Ok (tt, s1, t1).
Proof.
  intros Hwf0 Hc0 Hs0 Hnl HL HsL Hrun.
  assert (Hinv0 : inv s0).
  { split; [done|]. rewrite Hc0. split; [lia|]. split; [lia|]. apply not_elem_of_nil. }
  destruct (feed_frame _ _ _ _ Hinv0 HL) as ((HwfL & HcL & _) & HoL & HfL).
  assert (Hflags : flags sL = flags s0).
  { destruct HsL as [A1 A2], Hs0 as [B1 B2].
    rewrite (no_escape_flags _ A1 A2), (no_escape_flags _ B1 B2). by rewrite HfL. }
  rewrite feed_app, HL, feed_single in Hrun.
  rewrite esh_rx_newline in Hrun by done. cbv zeta in Hrun.
  set (line := take (cnt sL) (buffer sL)) in *.
  set (out := rewritten NUL line) in *.
  destruct (Nat.leb_spec (length out) ESH_BUFFER_LEN) as [Hout|Hout]; [|done].
  injection Hrun as Hs1 Ht1.
  pose proof HwfL as [HlL HaL]. pose proof Hwf0 as [Hl0 Ha0].
  assert (Hrel0 : replay_rel (buffer s1) (argv s0) (argv s1) s0 s1).
  { rewrite <- Hs1. unfold replay_rel, wf. cbn.
    rewrite !length_insert, length_app, length_drop, record_args_length, Hc0.
    pose proof (rewritten_length_le line NUL).
    repeat split; try done; try lia; try congruence. intros p. by right. }
  destruct (replay_feed _ _ _ _ _ _ _ _ Hrel0 Hnl HL) as (sL' & HL' & Hrel).
  destruct Hrel as (_ & Hwf' & Hc' & Hf' & Ho' & Ha' & Ha'' & Ht' & Hp').
  rewrite feed_app, HL', feed_single.
  rewrite esh_rx_newline; [|done|lia|by unfold no_escape; rewrite <- Hf'].
  cbv zeta. rewrite <- Hc', <- Ht'. fold line. fold out.
  rewrite (proj2 (Nat.leb_le _ _) Hout).
  assert (Hbuf : <[ESH_BUFFER_LEN := NUL]>
                   (<[length out := NUL]> (out ++ drop (length out) (buffer sL'))) =
                 buffer s1).
  { rewrite <- Hs1. cbn [buffer].
    apply overlay_replay; [done|by destruct Hwf'|done|].
    intros p. destruct (Hp' p) as [H|H]; [by left|right].
    by rewrite H, <- Hs1. }
  assert (Hargs : record_args 0 (token_reads 0 NUL true line) (argv sL') = argv s1).
  { rewrite Ha'', <- Hs1. cbn [argv]. by apply record_args_idem. }
  rewrite Hbuf, Hargs, <- Hf', <- Ho'.
  assert (Es1 : mk_esh (buffer s1) (argv s1) 0 (flags sL) (overflow sL) = s1).
  { by rewrite <- Hs1. }
  rewrite Es1. f_equal. f_equal. rewrite <- Ht1. by rewrite Hs1.
Qed.

(** ** Tokens in the rewritten buffer *)

Lemma c_string_app_terminated (l r : list ascii) :
  c_string (l ++ NUL :: r) = c_string l.
Proof.
  induction l as [|c l IH]; simpl; [reflexivity|].
  destruct (c =? NUL)%char; [reflexivity|]. by rewrite IH.
Qed.

Lemma rewritten_buffer_prefix (out X : list ascii) :
  length X = ESH_BUFFER_LEN + 1 -> length out <= ESH_BUFFER_LEN ->
  take (S (length out))
    (<[ESH_BUFFER_LEN := NUL]>
       (<[length out := NUL]> (out ++ drop (length out) X))) = out ++ [NUL].
Proof.
  intros HX Hout. apply list_eq. intros p.
  destruct (le_lt_dec (S (length out)) p) as [Hp|Hp].
  - rewrite lookup_take_ge by lia.
    rewrite lookup_ge_None_2; [done|]. rewrite length_app. simpl. lia.
  - rewrite lookup_take_lt by lia. rewrite overlay_lookup by done.
    repeat case_decide; subst.
    + rewrite lookup_app_r by lia.
      replace (ESH_BUFFER_LEN - length out) with 0 by lia. done.
    + rewrite lookup_app_r by lia. by rewrite Nat.sub_diag.
    + by rewrite lookup_app_l by lia.
    + lia.
Qed.

Lemma token_in_rewritten_buffer (out X : list ascii) (p : nat) :
  length X = ESH_BUFFER_LEN + 1 -> length out <= ESH_BUFFER_LEN ->
  p <= length out ->
  c_string
    (drop p (<[ESH_BUFFER_LEN := NUL]>
               (<[length out := NUL]> (out ++ drop (length out) X)))) =
  c_string (drop p out).
Proof.
  intros HX Hout Hp.
  set (Y := <[ESH_BUFFER_LEN := NUL]> _).
  rewrite <- (take_drop (S (length out)) Y). subst Y.
  rewrite rewritten_buffer_prefix by done.
  rewrite <- app_assoc. cbn [app].
  rewrite drop_app_le by done. apply c_string_app_terminated.
Qed.

(** C3, as the code has it: tokenizing [line_git] returns 4; argv[0..3]
    read git, config, user.name and My Name; and the buffer starts with
    [line_git_rewritten], that is with one NUL for each whitespace byte
    (three between git and config), with the terminator at index
    ESH_BUFFER_LEN. *)
Theorem tokenize_git_line (s : esh) (rest : list ascii) :
  wf s -> 4 <= ESH_ARGC_MAX ->
  buffer s = line_git ++ rest -> cnt s = length line_git ->
  exists s',
    make_arg_array s = Ok (4, s', [])
    /\ token_at s' 0 = Some (bytes "git")
    /\ token_at s' 1 = Some (bytes "config")
    /\ token_at s' 2 = Some (bytes "user.name")
    /\ token_at s' 3 = Some (bytes "My Name")
    /\ take (length line_git_rewritten) (buffer s') = line_git_rewritten
    /\ buffer s' !! ESH_BUFFER_LEN = Some NUL.
Proof.
  intros Hwf Hmax Hbuf Hcnt. pose proof Hwf as [Hb Ha].
  assert (Hlen : 32 + length rest = ESH_BUFFER_LEN + 1).
  { rewrite <- Hb, Hbuf, length_app. reflexivity. }
  rewrite make_arg_array_eq by (done || rewrite Hcnt; simpl; lia).
  cbv zeta. rewrite Hcnt, Hbuf, take_app_length, <- Hbuf.
  set (out := rewritten NUL line_git).
  assert (Hout : out = bytes "git" ++ [NUL; NUL; NUL] ++ bytes "config" ++ [NUL]
                         ++ bytes "user.name" ++ [NUL] ++ bytes "My Name")
    by reflexivity.
  assert (Hol : length out = 30) by (by rewrite Hout).
  rewrite (proj2 (Nat.leb_le _ _)) by lia.
  change (token_count NUL true line_git) with 4.
  change (token_reads 0 NUL true line_git) with [0; 6; 13; 23].
  eexists. split; [reflexivity|].
  assert (Hargs : forall k p, [0; 6; 13; 23] !! k = Some p ->
            record_args 0 [0; 6; 13; 23] (argv s) !! k = Some (Some p)).
  { intros k p Hk. apply (record_args_lookup_stored _ 0 _ k p); [done..|].
    apply lookup_lt_Some in Hk. simpl in Hk. lia. }
  unfold token_at. cbn [argv buffer].
  rewrite (Hargs 0 0), (Hargs 1 6), (Hargs 2 13), (Hargs 3 23) by done.
  rewrite !token_in_rewritten_buffer by lia.
  split; [rewrite Hout; reflexivity|].
  split; [rewrite Hout; reflexivity|].
  split; [rewrite Hout; reflexivity|].
  split; [rewrite Hout; reflexivity|].
  split.
  - change (length line_git_rewritten) with 31. rewrite <- Hol.
    rewrite rewritten_buffer_prefix by lia. rewrite Hout. reflexivity.
  - apply list_lookup_insert_eq.
    rewrite length_insert, length_app, length_drop. lia.
Qed.

(** C6: tokenizing [line_why] returns 1 and argv[0] reads the one
    NUL-terminated token [token_why] at the start of the rewritten buffer:
    the enclosing quote characters are gone, the quoted spaces are kept and
    the double quote between single quotes is kept literally. *)
Theorem tokenize_why_line (s : esh) (rest : list ascii) :
  wf s -> 1 <= ESH_ARGC_MAX ->
  buffer s = line_why ++ rest -> cnt s = length line_why ->
  exists s',
    make_arg_array s = Ok (1, s', [])
    /\ argv s' !! 0 = Some (Some 0)
    /\ token_at s' 0 = Some token_why
    /\ take (S (length token_why)) (buffer s') = token_why ++ [NUL].
Proof.
  intros Hwf Hmax Hbuf Hcnt. pose proof Hwf as [Hb Ha].
  assert (Hlen : 34 + length rest = ESH_BUFFER_LEN + 1).
  { rewrite <- Hb, Hbuf, length_app. reflexivity. }
  rewrite make_arg_array_eq by (done || rewrite Hcnt; simpl; lia).
  cbv zeta. rewrite Hcnt, Hbuf, take_app_length, <- Hbuf.
  set (out := rewritten NUL line_why).
  assert (Hout : out = token_why) by reflexivity.
  assert (Hol : length out = 28) by (by rewrite Hout).
  rewrite (proj2 (Nat.leb_le _ _)) by lia.
  change (token_count NUL true line_why) with 1.
  change (token_reads 0 NUL true line_why) with [0].
  eexists. split; [reflexivity|].
  assert (Hargs : record_args 0 [0] (argv s) !! 0 = Some (Some 0)).
  { apply (record_args_lookup_stored _ 0 _ 0 0); [done..|lia]. }
  unfold token_at. cbn [argv buffer]. rewrite Hargs.
  rewrite token_in_rewritten_buffer by lia.
  split; [reflexivity|].
  split; [rewrite Hout; reflexivity|].
  change (length token_why) with 28. rewrite <- Hol.
  rewrite rewritten_buffer_prefix by lia. rewrite Hout. reflexivity.
Qed.

(** ** Bounds on what the tokenizer returns and records *)

Lemma make_arg_array_argc_le (s s' : esh) (n : nat) (t : list event) :
  wf s -> cnt s <= ESH_BUFFER_LEN + 1 ->
  make_arg_array s = Ok (n, s', t) -> n <= cnt s.
Proof.
  intros Hwf Hc Hrun. rewrite make_arg_array_eq in Hrun by done.
  cbv zeta in Hrun. destruct (_ <=? _); [|done]. injection Hrun as <- _ _.
  pose proof (token_count_le (take (cnt s) (buffer s)) NUL true) as H.
  rewrite length_take in H. lia.
Qed.

Lemma token_reads_bound (line : list ascii) :
  forall i q lws p,
    p ∈ token_reads i q lws line -> i <= p < i + length line.
Proof.
  induction line as [|c line IH]; intros i q lws p Hp; simpl in *.
  - by apply elem_of_nil in Hp.
  - apply elem_of_app in Hp as [Hp|Hp].
    + destruct (starts_token q lws c); [|by apply elem_of_nil in Hp].
      apply list_elem_of_singleton in Hp. lia.
    + apply IH in Hp. lia.
Qed.

(** While no byte has been lost, every pointer the tokenizer records lies
    in the line, hence below ESH_BUFFER_LEN. *)
Lemma argv_within_line (s s' : esh) (n k p : nat) (t : list event) :
  wf s -> cnt s <= ESH_BUFFER_LEN ->
  make_arg_array s = Ok (n, s', t) ->
  k < n -> argv s' !! k = Some (Some p) -> p < cnt s.
Proof.
  intros Hwf Hc Hrun Hk Hp. pose proof Hwf as [Hb Ha].
  rewrite make_arg_array_eq in Hrun by (done || lia).
  cbv zeta in Hrun. destruct (_ <=? _); [|done]. injection Hrun as <- <- _.
  cbn [argv] in Hp.
  set (line := take (cnt s) (buffer s)) in *.
  assert (Hlen : length line = cnt s) by (subst line; rewrite length_take; lia).
  pose proof (token_reads_length line 0 NUL true) as Hr.
  destruct (lookup_lt_is_Some_2 (token_reads 0 NUL true line) k) as [p' Hp']; [lia|].
  assert (Hm : k < ESH_ARGC_MAX).
  { apply lookup_lt_Some in Hp. by rewrite record_args_length, Ha in Hp. }
  rewrite (record_args_lookup_stored _ 0 _ k p') in Hp by done.
  injection Hp as <-.
  assert (Hin : p' ∈ token_reads 0 NUL true line)
    by (apply list_elem_of_lookup; eauto).
  apply token_reads_bound in Hin. lia.
Qed.

(** ** The tokenizer after a byte has been lost *)

Lemma rewritten_no_quote (line : list ascii) :
  Forall (fun c => is_quote c = false) line ->
  length (rewritten NUL line) = length line.
Proof.
  induction 1 as [|c line Hc _ IH]; simpl; [done|].
  unfold emitted, quote_after. cbn. rewrite Hc.
  destruct (isspace c); simpl; by rewrite IH.
Qed.

Lemma make_arg_array_overflowed (s : esh) :
  wf s -> cnt s = ESH_BUFFER_LEN + 1 ->
  Forall (fun c => is_quote c = false) (buffer s) ->
  make_arg_array s = OutOfBounds (ESH_BUFFER_LEN + 1).
Proof.
  intros Hwf Hc Hq. pose proof Hwf as [Hb _].
  rewrite make_arg_array_eq by (done || lia). cbv zeta.
  rewrite Hc, <- Hb, firstn_all, rewritten_no_quote by done.
  rewrite Hb. by rewrite (proj2 (Nat.leb_gt _ _)) by lia.
Qed.

Lemma feed_fill (n : nat) :
  forall s,
    wf s -> no_escape s ->
    Forall (fun c => is_quote c = false) (buffer s) ->
    cnt s + n = ESH_BUFFER_LEN + 1 ->
    exists s' t,
      feed (replicate n "a") s = Ok (tt, s', t)
      /\ wf s' /\ no_escape s' /\ cnt s' = ESH_BUFFER_LEN + 1
      /\ Forall (fun c => is_quote c = false) (buffer s').
Proof.
  induction n as [|n IH]; intros s Hwf Hs Hq Hc.
  - exists s, []. rewrite Nat.add_0_r in Hc. done.
  - pose proof Hwf as [Hb Ha]. cbn [replicate]. rewrite feed_cons.
    rewrite esh_rx_plain by done.
    rewrite handle_char_eq by done. cbv zeta.
    change ((("a" =? BS)%char || ("a" =? DEL)%char)) with false. cbn [negb].
    rewrite andb_true_r. rewrite ltb_false by lia. cbn [orb].
    destruct (Nat.eqb_spec (cnt s) ESH_BUFFER_LEN) as [He|He];
      match goal with
      | |- context [feed _ ?s1] =>
          destruct (IH s1) as (s' & t & Hrun & H');
          [ split; cbn; by rewrite ?length_insert
          | done
          | cbn; by apply Forall_insert
          | cbn; lia
          | rewrite Hrun; by eexists _, _ ]
      end.
Qed.

(** C10 at work: from the initial state, ESH_BUFFER_LEN + 1 letters and a
    newline make the tokenizer store its final terminator at index
    ESH_BUFFER_LEN + 1, one past the last element of the buffer. *)
Theorem tokenizer_stores_past_the_buffer :
  feed (replicate (ESH_BUFFER_LEN + 1) "a" ++ [NL]) esh_init =
    OutOfBounds (ESH_BUFFER_LEN + 1).
Proof.
  destruct (feed_fill (ESH_BUFFER_LEN + 1) esh_init)
    as (s' & t & Hrun & Hwf & Hs & Hc & Hq).
  - apply inv_init.
  - done.
  - cbn. apply Forall_replicate. reflexivity.
  - reflexivity.
  - rewrite feed_app, Hrun, feed_single.
    rewrite esh_rx_no_escape by done. cbn [Ascii.eqb NL NUL ESC Bool.eqb].
    unfold bind. rewrite esh_putc_eq by done.
    rewrite execute_command_unfold, make_arg_array_overflowed by done.
    reflexivity.
Qed.

Lemma reachable_feed (cs : list ascii) :
  forall s s' t, reachable s -> feed cs s = Ok (tt, s', t) -> reachable s'.
Proof.
  induction cs as [|c cs IH]; intros s s' t Hs Hrun.
  - by injection Hrun as <- _.
  - rewrite feed_cons in Hrun.
    destruct (esh_rx c s) as [[[[] s1] t1]|] eqn:Hrx; [|done].
    destruct (feed cs s1) as [[[[] s2] t2]|] eqn:Hrest; [|done].
    injection Hrun as <- _. eapply IH; [|exact Hrest].
    by eapply reachable_rx.
Qed.

(** * Further properties of the engine *)

(** ** The escape filter *)

Lemma set_flags_id (s : esh) : set_flags (flags s) s = s.
Proof. by destruct s. Qed.

(** X1: while an escape sequence is pending (either flag set), every byte,
    the newline included, is consumed by the filter: only the flags can
    change; nothing is printed, stored or dispatched. *)
Theorem escape_consumes_every_byte (s : esh) (c : ascii) :
  ~ no_escape s ->
  exists f, esh_rx c s = Ok (tt, set_flags f s, []).
Proof.
  intros Hs. rewrite esh_rx_filter.
  destruct (escape_filter (flags s) c) as [f|] eqn:Hf; [by exists f|].
  apply escape_filter_None in Hf as (H1 & H2 & _). exfalso. by apply Hs.
Qed.

Lemma esh_rx_in_bracket (c : ascii) (s : esh) :
  Z.land (flags s) IN_BRACKET_ESCAPE <> 0%Z ->
  esh_rx c s =
    Ok (tt,
        if isalpha c
        then set_flags (Z.land (flags s) (Z.lnot (Z.lor IN_ESCAPE IN_BRACKET_ESCAPE))) s
        else s,
        []).
Proof.
  intros H. unfold esh_rx. unfold_m.
  destruct (Z.eqb_spec (Z.land (flags s) IN_BRACKET_ESCAPE) 0); [done|].
  cbn [negb]. by destruct (isalpha c).
Qed.

Lemma feed_parameters (params : list ascii) (s : esh) :
  Z.land (flags s) IN_BRACKET_ESCAPE <> 0%Z ->
  Forall (fun c => isalpha c = false) params ->
  feed params s = Ok (tt, s, []).
Proof.
  intros Hs Hp. induction Hp as [|c params Hc _ IH]; [done|].
  rewrite feed_cons, esh_rx_in_bracket by done. rewrite Hc. by rewrite IH.
Qed.

(** X2: a whole control sequence is absorbed, however long its parameters:
    from a state with neither flag set, ESC, then '[' or 'O', then any
    number of bytes that are no letters, then one letter, leave the context
    exactly as it was and call no hook. *)
Theorem control_sequence_is_absorbed
        (s : esh) (i final : ascii) (params : list ascii) :
  no_escape s ->
  i = "[" \/ i = "O" ->
  Forall (fun c => isalpha c = false) params ->
  isalpha final = true ->
  feed (ESC :: i :: params ++ [final]) s = Ok (tt, s, []).
Proof.
  intros [H1 H2] Hi Hp Hf.
  destruct (flags_enter_escape _ H1 H2) as (E1 & E2 & _).
  destruct (flags_enter_bracket _ H1 H2) as (B1 & B2).
  rewrite feed_cons, esh_rx_no_escape by done. cbn [Ascii.eqb NUL ESC Bool.eqb].
  set (s1 := set_flags (Z.lor (flags s) IN_ESCAPE) s).
  assert (Hrx : esh_rx i s1 =
                Ok (tt, set_flags (Z.lor (Z.lor (flags s) IN_ESCAPE) IN_BRACKET_ESCAPE) s1, [])).
  { unfold esh_rx. unfold_m. subst s1. cbn [flags set_flags].
    rewrite E1, E2. cbn [Z.eqb negb]. by destruct Hi as [-> | ->]. }
  rewrite feed_cons, Hrx.
  set (s2 := set_flags _ s1).
  assert (Hs2 : Z.land (flags s2) IN_BRACKET_ESCAPE <> 0%Z).
  { subst s2 s1. cbn [flags set_flags]. by rewrite B1. }
  rewrite feed_app, feed_parameters, feed_single, esh_rx_in_bracket by done.
  rewrite Hf. subst s2 s1. cbn [flags set_flags]. rewrite B2.
  cbn. by destruct s.
Qed.

(** ** Printing *)

(** X3: [esh_puts_F] hands the bytes of its string to the print hook one
    call per byte, in order, stops at the first NUL of the string, and does
    not touch the context; so what follows a NUL is never printed. *)
Theorem esh_puts_F_prints_up_to_NUL (m r : list ascii) (s : esh) :
  NUL ∉ m ->
  esh_puts_F (m ++ NUL :: r) s = Ok (tt, s, map (fun c => EvPrint [c]) m)
  /\ esh_puts_F m s = Ok (tt, s, map (fun c => EvPrint [c]) m).
Proof.
  intros Hm. rewrite !esh_puts_F_eq. rewrite c_string_app_NUL by done.
  split; [done|].
  rewrite <- (c_string_app_NUL m []) at 2 by done.
  by rewrite c_string_app_terminated.
Qed.

(** ** The line editor *)

Lemma feed_plain_bytes (line : list ascii) (s : esh) :
  wf s -> no_escape s ->
  Forall plain line ->
  cnt s + length line <= ESH_BUFFER_LEN ->
  feed line s =
    Ok (tt,
        mk_esh (take (cnt s) (buffer s) ++ line
                  ++ drop (cnt s + length line) (buffer s))
               (argv s) (cnt s + length line) (flags s) (overflow s),
        map (fun c => EvPrint [c]) line).
Proof.
  intros Hwf Hs Hp. revert s Hwf Hs.
  induction Hp as [|c line Hc _ IH]; intros s Hwf Hs Hn.
  - cbn. unfold ret. by rewrite !Nat.add_0_r, take_drop, esh_eta.
  - destruct Hc as (H0 & H1 & H2 & H3 & H4). pose proof Hwf as [Hb Ha].
    cbn [length] in Hn.
    rewrite feed_cons, esh_rx_plain, handle_char_store by (done || lia).
    set (s1 := set_cnt _ _).
    rewrite (IH s1); subst s1; cbn [cnt buffer argv flags overflow set_cnt set_buffer].
    + cbn [map app length]. f_equal. f_equal. f_equal. f_equal; [|lia].
      replace (cnt s + 1) with (S (cnt s)) by lia.
      rewrite (take_S_r _ _ c) by (apply list_lookup_insert_eq; lia).
      rewrite take_insert_ge, drop_insert_lt by lia.
      rewrite <- app_assoc. cbn [app].
      by replace (S (cnt s) + length line) with (cnt s + S (length line)) by lia.
    + split; cbn; by rewrite ?length_insert.
    + done.
    + lia.
Qed.

(** X4: typing.  Outside an escape sequence, plain bytes that fit below
    ESH_BUFFER_LEN are echoed one by one and appended to the line in order:
    the bytes before count and the bytes after the new count are untouched,
    and count grows by the number of bytes. *)
Theorem typing_plain_bytes (line : list ascii) (s : esh) :
  wf s -> no_escape s ->
  Forall plain line ->
  cnt s + length line <= ESH_BUFFER_LEN ->
  feed line s =
    Ok (tt,
        mk_esh (take (cnt s) (buffer s) ++ line
                  ++ drop (cnt s + length line) (buffer s))
               (argv s) (cnt s + length line) (flags s) (overflow s),
        map (fun c => EvPrint [c]) line).
Proof. exact (feed_plain_bytes line s). Qed.

(** X5: a typed byte can be taken back.  Below ESH_BUFFER_LEN, a plain
    byte followed by a backspace (8 or 127) restores count and the line;
    the byte is echoed and then erased on the terminal, and the only trace
    it leaves is the stale byte at buffer[count]. *)
Theorem type_then_backspace (s : esh) (c b : ascii) :
  wf s -> no_escape s -> cnt s < ESH_BUFFER_LEN ->
  plain c -> b = BS \/ b = DEL ->
  feed [c; b] s =
    Ok (tt, set_buffer (<[cnt s := c]> (buffer s)) s,
        [EvPrint [c]; EvPrint [BS; " "; BS]])
  /\ take (cnt s) (<[cnt s := c]> (buffer s)) = take (cnt s) (buffer s).
Proof.
  intros Hwf Hs Hn (H0 & H1 & H2 & H3 & H4) Hb.
  split; [|by rewrite take_insert_ge].
  rewrite feed_cons, esh_rx_plain, handle_char_store by done.
  rewrite feed_single, esh_rx_plain; [|done|by destruct Hb as [-> | ->]..].
  rewrite handle_char_backspace by (done || (cbn; lia)).
  cbn [cnt set_cnt set_buffer buffer argv flags overflow].
  destruct (Nat.eqb_spec (cnt s + 1) 0); [lia|].
  unfold set_cnt, set_buffer. cbn. by rewrite Nat.add_sub.
Qed.

Lemma callbacks_prints (m : list ascii) :
  callbacks (map (fun c => EvPrint [c]) m) = [].
Proof. induction m; [done|]. cbn. exact IHm. Qed.

Lemma callbacks_app (t1 t2 : list event) :
  callbacks (t1 ++ t2) = callbacks t1 ++ callbacks t2.
Proof. apply List.filter_app. Qed.

Lemma callbacks_handler_output (s : esh) : callbacks (handler_output s) = [].
Proof. unfold handler_output. destruct (overflow s); [apply callbacks_prints|done]. Qed.

(** X6: nothing is dispatched without a newline.  From any state that
    satisfies the engine's invariant, input that holds no newline byte is
    always processed without fault, never calls the command callback, and
    leaves argv and the registered overflow handler as they were. *)
Theorem no_newline_no_dispatch (cs : list ascii) (s : esh) :
  inv s -> NL ∉ cs ->
  exists s' t,
    feed cs s = Ok (tt, s', t)
    /\ inv s' /\ argv s' = argv s /\ overflow s' = overflow s
    /\ callbacks t = [].
Proof.
  revert s. induction cs as [|c cs IH]; intros s Hinv Hnl.
  - by exists s, [].
  - apply not_elem_of_cons in Hnl as [Hc Hnl].
    assert (Hstep : exists s1 t1, esh_rx c s = Ok (tt, s1, t1)
                      /\ argv s1 = argv s /\ overflow s1 = overflow s
                      /\ callbacks t1 = []).
    { rewrite esh_rx_filter.
      destruct (escape_filter (flags s) c) as [f|] eqn:Hf; [by eexists _, _|].
      apply escape_filter_None in Hf as (_ & _ & H0 & _).
      destruct (Ascii.eqb_spec c NL); [congruence|].
      destruct Hinv as (Hwf & _).
      destruct (handle_char_cases c s Hwf H0)
        as [[Hh _]|[[Hh _]|(n' & Hh & _)]]; rewrite Hh; eexists _, _;
        (split; [reflexivity|]); cbn; repeat split; try done.
      - apply callbacks_handler_output.
      - by destruct (cnt s =? 0). }
    destruct Hstep as (s1 & t1 & Hrx & Ha1 & Ho1 & Hc1).
    destruct (IH s1 (inv_esh_rx _ _ _ _ Hinv Hrx) Hnl)
      as (s2 & t2 & Hrun & Hinv2 & Ha2 & Ho2 & Hc2).
    exists s2, (t1 ++ t2). rewrite feed_cons, Hrx, Hrun.
    split; [done|]. split; [done|]. split; [congruence|]. split; [congruence|].
    by rewrite callbacks_app, Hc1, Hc2.
Qed.

(** X7: the overflow state is left only by a newline.  Once a byte has
    been lost (count == ESH_BUFFER_LEN + 1), no input without a newline
    byte -- backspaces and escape sequences included -- changes count or
    any byte of the buffer. *)
Theorem overflow_state_is_sticky (cs : list ascii) (s : esh) :
  wf s -> cnt s = ESH_BUFFER_LEN + 1 ->
  buffer s !! ESH_BUFFER_LEN = Some NUL ->
  NL ∉ cs ->
  exists s' t,
    feed cs s = Ok (tt, s', t)
    /\ cnt s' = ESH_BUFFER_LEN + 1 /\ buffer s' = buffer s.
Proof.
  revert s. induction cs as [|c cs IH]; intros s Hwf Hn Hb Hnl.
  - by exists s, [].
  - apply not_elem_of_cons in Hnl as [Hc Hnl].
    assert (Hstep : exists s1 t1, esh_rx c s = Ok (tt, s1, t1)
                      /\ wf s1 /\ cnt s1 = cnt s /\ buffer s1 = buffer s).
    { rewrite esh_rx_filter.
      destruct (escape_filter (flags s) c) as [f|] eqn:Hf; [by eexists _, _|].
      apply escape_filter_None in Hf as (_ & _ & H0 & _).
      destruct (Ascii.eqb_spec c NL); [congruence|].
      rewrite handle_char_overflow by (done || (left; lia)).
      rewrite (list_insert_id _ _ _ Hb).
      eexists _, _. split; [reflexivity|]. cbn. by rewrite Hn. }
    destruct Hstep as (s1 & t1 & Hrx & Hwf1 & Hn1 & Hb1).
    destruct (IH s1) as (s2 & t2 & Hrun & Hn2 & Hb2); [done|congruence|congruence|done|].
    exists s2, (t1 ++ t2). rewrite feed_cons, Hrx, Hrun.
    split; [done|]. split; congruence.
Qed.

(** X8: the one fault the engine can commit.  From a state that satisfies
    the invariant, [esh_rx] either completes, or the byte is a newline that
    runs the tokenizer on a line that has lost a byte (count ==
    ESH_BUFFER_LEN + 1), and the fault is the store at index
    ESH_BUFFER_LEN + 1.  While count <= ESH_BUFFER_LEN no access is out of
    bounds. *)
Theorem only_fault_is_the_terminator_store (c : ascii) (s : esh) :
  inv s ->
  (exists s' t, esh_rx c s = Ok (tt, s', t))
  \/ (c = NL /\ no_escape s /\ cnt s = ESH_BUFFER_LEN + 1
      /\ esh_rx c s = OutOfBounds (ESH_BUFFER_LEN + 1)).
Proof.
  intros (Hwf & Hc & _). rewrite esh_rx_filter.
  destruct (escape_filter (flags s) c) as [f|] eqn:Hf; [left; by eexists _, _|].
  apply escape_filter_None in Hf as (H1 & H2 & H0 & _).
  destruct (Ascii.eqb_spec c NL) as [->|Hnl].
  - assert (Hs : no_escape s) by done.
    pose proof (esh_rx_newline s Hwf Hc Hs) as Hrx.
    rewrite esh_rx_no_escape in Hrx by done.
    cbn [Ascii.eqb NL NUL ESC Bool.eqb] in Hrx. rewrite Hrx. cbv zeta.
    pose proof (rewritten_length_le (take (cnt s) (buffer s)) NUL) as Hle.
    rewrite length_take in Hle.
    destruct (Nat.leb_spec (length (rewritten NUL (take (cnt s) (buffer s))))
                ESH_BUFFER_LEN) as [Hin|Hout].
    + left. by eexists _, _.
    + right. destruct Hwf as [Hb _].
      replace (length (rewritten NUL (take (cnt s) (buffer s))))
        with (ESH_BUFFER_LEN + 1) by lia.
      repeat split; try done. lia.
  - left. destruct (handle_char_cases c s Hwf H0)
      as [[Hh _]|[[Hh _]|(n' & Hh & _)]]; rewrite Hh; by eexists _, _.
Qed.

(** ** The tokenizer within the capacity of the buffer *)


(** X10: while no byte has been lost, the count the tokenizer returns is at
    most the number of bytes of the line, and every pointer it records
    points into the line: below count, hence below ESH_BUFFER_LEN. *)
Theorem recorded_pointers_lie_in_the_line
        (s s' : esh) (n : nat) (t : list event) :
  wf s -> cnt s <= ESH_BUFFER_LEN ->
  make_arg_array s = Ok (n, s', t) ->
  n <= cnt s
  /\ forall k p, k < n -> argv s' !! k = Some (Some p) ->
       p < cnt s /\ p < ESH_BUFFER_LEN.
Proof.
  intros Hwf Hc Hrun. split.
  - eapply make_arg_array_argc_le; [done| |exact Hrun]. lia.
  - intros k p Hk Hp.
    pose proof (argv_within_line _ _ _ _ _ _ Hwf Hc Hrun Hk Hp). lia.
Qed.

Lemma blank_line_has_no_token (line : list ascii) :
  Forall (fun c => isspace c = true) line ->
  forall i lws,
    token_count NUL lws line = 0 /\ token_reads i NUL lws line = [].
Proof.
  induction 1 as [|c line Hc _ IH]; intros i lws; [done|].
  cbn [token_count token_reads]. unfold starts_token, quote_after, space_after.
  change (in_quote NUL) with false. rewrite Hc. cbn.
  apply (IH (S i) true).
Qed.

(** X11: an empty or all-whitespace line runs no command.  On newline the
    engine echoes the newline and prints the prompt, calls neither the
    callback nor the overflow handler, leaves argv as it was and resets
    count. *)
Theorem blank_line_only_reprints_the_prompt (s : esh) :
  wf s -> no_escape s -> cnt s <= ESH_BUFFER_LEN ->
  Forall (fun c => isspace c = true) (take (cnt s) (buffer s)) ->
  exists s',
    esh_rx NL s = Ok (tt, s', EvPrint [NL] :: prompt_output)
    /\ cnt s' = 0 /\ argv s' = argv s.
Proof.
  intros Hwf Hs Hc Hsp.
  rewrite esh_rx_newline by (done || lia). cbv zeta.
  pose proof (rewritten_length_le (take (cnt s) (buffer s)) NUL) as Hle.
  rewrite length_take in Hle.
  rewrite (proj2 (Nat.leb_le _ _)) by lia.
  destruct (blank_line_has_no_token _ Hsp 0 true) as [-> ->].
  eexists. split.
  - unfold dispatch_output. rewrite ltb_false by lia. reflexivity.
  - done.
Qed.

(** ** Lines without quote characters *)

Lemma c_string_id (l : list ascii) : NUL ∉ l -> c_string l = l.
Proof.
  intros Hl. rewrite <- (c_string_app_NUL l []) at 2 by done.
  by rewrite c_string_app_terminated.
Qed.

Lemma rewritten_take_word (line : list ascii) :
  Forall (fun c => is_quote c = false) line -> NUL ∉ line ->
  c_string (rewritten NUL line) = take_word line.
Proof.
  induction 1 as [|c line Hc _ IH]; intros Hnul; [done|].
  apply not_elem_of_cons in Hnul as [Hc0 Hnul].
  cbn [rewritten take_word]. unfold emitted, quote_after.
  change (in_quote NUL) with false. cbn iota. rewrite Hc.
  destruct (isspace c); cbn; [done|].
  destruct (Ascii.eqb_spec c NUL); [congruence|]. by rewrite IH.
Qed.

Lemma unquoted_pass (line : list ascii) :
  Forall (fun c => is_quote c = false) line ->
  forall i lws,
    token_count NUL lws line = length (words lws line)
    /\ token_reads i NUL lws line = token_writes i NUL lws line.
Proof.
  induction 1 as [|c line Hc _ IH]; intros i lws; [done|].
  cbn [token_count token_reads token_writes words].
  unfold starts_token, emitted, quote_after, space_after.
  change (in_quote NUL) with false. cbn iota. rewrite Hc.
  destruct (isspace c); cbn.
  - by destruct (IH (S i) true) as [-> ->].
  - destruct (IH (S i) false) as [-> ->]. by destruct lws.
Qed.

Lemma unquoted_token (line : list ascii) :
  Forall (fun c => is_quote c = false) line -> NUL ∉ line ->
  forall i lws k p w,
    token_reads i NUL lws line !! k = Some p ->
    words lws line !! k = Some w ->
    i <= p /\ c_string (drop (p - i) (rewritten NUL line)) = w.
Proof.
  induction 1 as [|c line Hc Hq IH]; intros Hnul i lws k p w Hp Hw; [done|].
  apply not_elem_of_cons in Hnul as [Hc0 Hnul].
  revert Hp Hw. cbn [token_reads words rewritten].
  unfold starts_token, emitted, quote_after, space_after.
  change (in_quote NUL) with false. cbn iota. rewrite Hc.
  destruct (isspace c) eqn:Hsp; cbn.
  - intros Hp Hw.
    destruct (IH Hnul (S i) true k p w Hp Hw) as [Hi Ht].
    split; [lia|]. replace (p - i) with (S (p - S i)) by lia. exact Ht.
  - destruct lws; cbn.
    + destruct k as [|k]; cbn.
      * intros [= <-] [= <-]. split; [done|]. rewrite Nat.sub_diag. cbn.
        destruct (Ascii.eqb_spec c NUL); [congruence|].
        by rewrite rewritten_take_word.
      * intros Hp Hw. destruct (IH Hnul (S i) false k p w Hp Hw) as [Hi Ht].
        split; [lia|]. replace (p - i) with (S (p - S i)) by lia. exact Ht.
    + intros Hp Hw. destruct (IH Hnul (S i) false k p w Hp Hw) as [Hi Ht].
      split; [lia|]. replace (p - i) with (S (p - S i)) by lia. exact Ht.
Qed.

Lemma make_arg_array_unquoted (s : esh) :
  wf s -> cnt s <= ESH_BUFFER_LEN ->
  Forall (fun c => is_quote c = false) (take (cnt s) (buffer s)) ->
  NUL ∉ take (cnt s) (buffer s) ->
  exists s',
    make_arg_array s = Ok (length (words true (take (cnt s) (buffer s))), s', [])
    /\ argv s' =
         record_args 0 (token_writes 0 NUL true (take (cnt s) (buffer s))) (argv s)
    /\ forall k w,
         k < ESH_ARGC_MAX ->
         words true (take (cnt s) (buffer s)) !! k = Some w ->
         token_at s' k = Some w.
Proof.
  intros Hwf Hc Hq Hnul. pose proof Hwf as [Hb Ha].
  rewrite make_arg_array_eq by (done || lia). cbv zeta.
  set (line := take (cnt s) (buffer s)) in *.
  assert (Hlen : length line = cnt s) by (subst line; rewrite length_take; lia).
  pose proof (rewritten_no_quote line Hq) as Hout.
  rewrite (proj2 (Nat.leb_le _ _)) by lia.
  destruct (unquoted_pass line Hq 0 true) as [Hcount Hreads].
  rewrite Hcount. eexists. split; [reflexivity|]. cbn [argv].
  split; [by rewrite Hreads|].
  intros k w Hk Hw. unfold token_at. cbn [argv buffer].
  pose proof (token_reads_length line 0 NUL true) as Hrl.
  destruct (lookup_lt_is_Some_2 (token_reads 0 NUL true line) k) as [p Hp].
  { rewrite Hrl, Hcount. by eapply lookup_lt_Some. }
  rewrite (record_args_lookup_stored _ 0 _ k p) by done.
  destruct (unquoted_token line Hq Hnul 0 true k p w Hp Hw) as [_ Ht].
  assert (Hin : p ∈ token_reads 0 NUL true line) by (apply list_elem_of_lookup; eauto).
  apply token_reads_bound in Hin.
  rewrite token_in_rewritten_buffer by lia.
  by rewrite Nat.sub_0_r in Ht; rewrite Ht.
Qed.

(** X12: a line without quote characters is split at whitespace.  For a
    line of count <= ESH_BUFFER_LEN bytes holding neither a quote character
    nor a NUL, the tokenizer returns the number of whitespace-separated
    words of the line; through argv[k] the callback reads exactly the k-th
    word, for every k below ESH_ARGC_MAX; and the pointers it records are
    the write positions at which the tokens start. *)
Theorem unquoted_line_is_split_into_words (s : esh) :
  wf s -> cnt s <= ESH_BUFFER_LEN ->
  Forall (fun c => is_quote c = false) (take (cnt s) (buffer s)) ->
  NUL ∉ take (cnt s) (buffer s) ->
  exists s',
    make_arg_array s = Ok (length (words true (take (cnt s) (buffer s))), s', [])
    /\ argv s' =
         record_args 0 (token_writes 0 NUL true (take (cnt s) (buffer s))) (argv s)
    /\ forall k w,
         k < ESH_ARGC_MAX ->
         words true (take (cnt s) (buffer s)) !! k = Some w ->
         token_at s' k = Some w.
Proof. exact (make_arg_array_unquoted s). Qed.

(** ** Quoted arguments *)

Lemma quote_char (q : ascii) :
  is_quote q = true -> isspace q = false /\ in_quote q = true.
Proof.
  unfold is_quote. intros H.
  apply orb_true_iff in H as [H|H]; apply Ascii.eqb_eq in H; by subst.
Qed.

Lemma quoted_tail (q : ascii) (body closing : list ascii) :
  in_quote q = true -> q ∉ body -> closing = [] \/ closing = [q] ->
  forall i lws,
    rewritten q (body ++ closing) = body
    /\ token_count q lws (body ++ closing) = 0
    /\ token_reads i q lws (body ++ closing) = [].
Proof.
  intros Hq Hbody Hclose. induction body as [|c body IH]; intros i lws.
  - destruct Hclose as [-> | ->]; [done|].
    cbn. unfold emitted, starts_token, quote_after, space_after.
    by rewrite Hq, Ascii.eqb_refl.
  - apply not_elem_of_cons in Hbody as [Hc Hbody].
    cbn [app rewritten token_count token_reads].
    unfold emitted, starts_token, quote_after, space_after. rewrite Hq.
    destruct (Ascii.eqb_spec c q); [congruence|]. cbn.
    destruct (IH Hbody (S i) false) as (-> & -> & ->). done.
Qed.

(** X13: a quoted argument.  A line made of a quote character, a body
    that holds neither that quote character nor a NUL, and the closing
    quote character -- or no closing quote at all -- is one argument:
    the tokenizer returns 1 and argv[0] reads the body, whitespace and
    quote characters of the other kind included. *)
Theorem quoted_argument (s : esh) (q : ascii) (body closing : list ascii) :
  wf s -> 1 <= ESH_ARGC_MAX -> cnt s <= ESH_BUFFER_LEN + 1 ->
  is_quote q = true -> q ∉ body -> NUL ∉ body ->
  closing = [] \/ closing = [q] ->
  take (cnt s) (buffer s) = q :: body ++ closing ->
  exists s',
    make_arg_array s = Ok (1, s', [])
    /\ token_at s' 0 = Some body.
Proof.
  intros Hwf Hmax Hc Hq Hbody Hnul Hclose Hline. pose proof Hwf as [Hb Ha].
  destruct (quote_char q Hq) as [Hsp Hin].
  assert (Hlen : S (length body + length closing) = cnt s).
  { rewrite <- length_app. change (length (q :: body ++ closing) = cnt s).
    rewrite <- Hline, length_take. lia. }
  rewrite make_arg_array_eq by done. cbv zeta. rewrite Hline.
  cbn [rewritten token_count token_reads].
  unfold emitted, starts_token, quote_after, space_after.
  change (in_quote NUL) with false. rewrite Hsp, Hq. cbn -[record_args].
  destruct (quoted_tail q body closing Hin Hbody Hclose 1 false) as (-> & -> & ->).
  rewrite (proj2 (Nat.leb_le _ _)) by lia.
  eexists. split; [reflexivity|].
  unfold token_at. cbn [argv buffer].
  rewrite (record_args_lookup_stored [0] 0 _ 0 0) by (done || lia).
  rewrite token_in_rewritten_buffer by lia.
  by rewrite drop_0, c_string_id.
Qed.

(** ** A command line from the first byte to the callback *)

(** X14: typing a command and pressing enter.  From a state with an empty
    line and no escape pending, a line of plain bytes without quote
    characters that fits the buffer and has between 1 and ESH_ARGC_MAX
    words, followed by a newline, is echoed byte by byte; then the callback
    is called exactly once, with argc the number of words and argv[k]
    reading the k-th word; then the prompt is printed and count is 0. *)
Theorem command_line_reaches_the_callback (s : esh) (line : list ascii) :
  wf s -> no_escape s -> cnt s = 0 ->
  Forall plain line ->
  Forall (fun c => is_quote c = false) line ->
  length line <= ESH_BUFFER_LEN ->
  0 < length (words true line) <= ESH_ARGC_MAX ->
  exists s',
    feed (line ++ [NL]) s =
      Ok (tt, s',
          map (fun c => EvPrint [c]) line
            ++ EvPrint [NL]
            :: EvCallback (length (words true line)) (argv s') (buffer s')
            :: prompt_output)
    /\ cnt s' = 0
    /\ forall k w, words true line !! k = Some w -> token_at s' k = Some w.
Proof.
  intros Hwf Hs Hc0 Hplain Hq Hfit [Hw1 Hw2]. pose proof Hwf as [Hb Ha].
  rewrite feed_app, feed_plain_bytes by (done || lia).
  rewrite Hc0. change (take 0 (buffer s)) with (@nil ascii).
  cbn [app Nat.add].
  set (sL := mk_esh _ _ _ _ _).
  assert (HwfL : wf sL).
  { split; [|done]. subst sL. cbn. rewrite length_app, length_drop. lia. }
  assert (HlineL : take (cnt sL) (buffer sL) = line).
  { subst sL. cbn. by rewrite take_app_length. }
  assert (HsL : no_escape sL) by done.
  assert (Hnul : NUL ∉ line).
  { intros Hin. rewrite Forall_forall in Hplain.
    by destruct (Hplain NUL Hin) as [H _]. }
  destruct (make_arg_array_unquoted sL) as (s1 & Hrun & _ & Htok);
    [done|done|by rewrite HlineL..|].
  rewrite HlineL in Hrun, Htok.
  rewrite feed_single, esh_rx_no_escape by done.
  cbn [Ascii.eqb NL NUL ESC Bool.eqb]. unfold bind.
  rewrite esh_putc_eq by done.
  rewrite (execute_command_eq sL s1 _ Hrun).
  unfold dispatch_output.
  rewrite ltb_false, ltb_true by lia.
  exists (set_cnt 0 s1). split; [reflexivity|]. split; [reflexivity|].
  intros k w Hk. apply (Htok k w); [|done].
  apply lookup_lt_Some in Hk. lia.
Qed.

(** X16: a command with too many words.  Under the hypotheses of the
    previous property but with more than ESH_ARGC_MAX words, the line is
    echoed, then the overflow handler -- and not the callback -- is called
    with the rewritten buffer, then the prompt is printed and count is 0;
    argv holds the first ESH_ARGC_MAX words. *)
Theorem too_many_words_reach_the_overflow_handler (s : esh) (line : list ascii) :
  wf s -> no_escape s -> cnt s = 0 ->
  Forall plain line ->
  Forall (fun c => is_quote c = false) line ->
  length line <= ESH_BUFFER_LEN ->
  ESH_ARGC_MAX < length (words true line) ->
  exists s',
    feed (line ++ [NL]) s =
      Ok (tt, s',
          map (fun c => EvPrint [c]) line
            ++ EvPrint [NL]
            :: EvOverflow (buffer s') :: handler_output s' ++ prompt_output)
    /\ cnt s' = 0
    /\ forall k w,
         k < ESH_ARGC_MAX -> words true line !! k = Some w ->
         token_at s' k = Some w.
Proof.
  intros Hwf Hs Hc0 Hplain Hq Hfit Hw. pose proof Hwf as [Hb Ha].
  rewrite feed_app, feed_plain_bytes by (done || lia).
  rewrite Hc0. change (take 0 (buffer s)) with (@nil ascii).
  cbn [app Nat.add].
  set (sL := mk_esh _ _ _ _ _).
  assert (HwfL : wf sL).
  { split; [|done]. subst sL. cbn. rewrite length_app, length_drop. lia. }
  assert (HlineL : take (cnt sL) (buffer sL) = line).
  { subst sL. cbn. by rewrite take_app_length. }
  assert (HsL : no_escape sL) by done.
  assert (Hnul : NUL ∉ line).
  { intros Hin. rewrite Forall_forall in Hplain.
    by destruct (Hplain NUL Hin) as [H _]. }
  destruct (make_arg_array_unquoted sL) as (s1 & Hrun & _ & Htok);
    [done|done|by rewrite HlineL..|].
  rewrite HlineL in Hrun, Htok.
  rewrite feed_single, esh_rx_no_escape by done.
  cbn [Ascii.eqb NL NUL ESC Bool.eqb]. unfold bind.
  rewrite esh_putc_eq by done.
  rewrite (execute_command_eq sL s1 _ Hrun).
  unfold dispatch_output. rewrite ltb_true by lia.
  exists (set_cnt 0 s1). split; [reflexivity|]. split; [reflexivity|].
  intros k w Hk. by apply (Htok k w).
Qed.

(** ** Reachable states *)

(** X15: every state the engine can reach from [esh_init] -- whatever
    bytes arrive and whichever overflow handler is registered, as long as
    no access faulted -- keeps the two arrays at their declared sizes,
    count at most ESH_BUFFER_LEN + 1, the terminator in place whenever a
    byte has been lost, and the line being typed free of NUL bytes. *)
Theorem reachable_context_is_bounded (s : esh) :
  reachable s ->
  length (buffer s) = ESH_BUFFER_LEN + 1
  /\ length (argv s) = ESH_ARGC_MAX
  /\ cnt s <= ESH_BUFFER_LEN + 1
  /\ (cnt s = ESH_BUFFER_LEN + 1 -> buffer s !! ESH_BUFFER_LEN = Some NUL)
  /\ (forall i, i < cnt s -> i < ESH_BUFFER_LEN -> buffer s !! i <> Some NUL).
Proof.
  intros Hr. destruct (reachable_inv s Hr) as ([Hb Ha] & Hc & Hterm & Hline).
  do 4 (split; [done|]).
  intros i Hi1 Hi2 Hnul. apply Hline.
  apply list_elem_of_lookup. exists i.
  rewrite lookup_take_lt by lia. done.
Qed.

End Esh.

(** * The engine on concrete input *)

(** [run_state m] and [run_trace m]: the context and the trace a run [m]
    ends with, by evaluation. *)
Ltac run_state m :=
  let v := eval vm_compute in m in
  match v with Ok (_, ?s, _) => exact s end.

Ltac run_trace m :=
  let v := eval vm_compute in m in
  match v with Ok (_, _, ?t) => exact t end.

Ltac by_evaluation :=
  repeat match goal with |- _ /\ _ => split end;
  vm_compute; solve [reflexivity | discriminate].

(** C2 on a concrete line: for [line_quoted_first] the tokenizer finds
    three tokens and writes them at 0, 2 and 5, but the pointers it records
    are the read indices 0, 4 and 7.  Through argv[1] the callback reads an
    empty string where the token bc is expected; bc itself sits at the
    write position 2. *)
Theorem argv_records_the_read_index :
  exists s',
    make_arg_array 8 4 (holding 8 4 line_quoted_first) = Ok (3, s', [])
    /\ argv s' = [Some 0; Some 4; Some 7; None]
    /\ token_writes 0 NUL true line_quoted_first = [0; 2; 5]
    /\ token_at s' 1 = Some []
    /\ c_string (drop 2 (buffer s')) = bytes "bc".
Proof.
  exists ltac:(run_state (make_arg_array 8 4 (holding 8 4 line_quoted_first))).
  by_evaluation.
Qed.

(** C4 on a concrete run: with room for four bytes and two arguments, the
    four bytes of [line_quote_space], one more byte (which is lost) and a
    newline reach a state in which argv[1] points at index 4, that is at
    buffer[ESH_BUFFER_LEN], and the callback is called with that pointer. *)
Theorem argv_entry_at_the_terminator :
  exists s' t,
    feed 4 2 demo_prompt (line_quote_space ++ ["x"; NL]) (esh_init 4 2)
      = Ok (tt, s', t)
    /\ reachable 4 2 demo_prompt s'
    /\ argv s' !! 1 = Some (Some 4)
    /\ callbacks t = [EvCallback 2 [Some 0; Some 4] (bytes "a" ++ [NUL; NUL; NUL; NUL])].
Proof.
  pose (s' := ltac:(run_state (feed 4 2 demo_prompt (line_quote_space ++ ["x"; NL]) (esh_init 4 2)))).
  pose (t := ltac:(run_trace (feed 4 2 demo_prompt (line_quote_space ++ ["x"; NL]) (esh_init 4 2)))).
  assert (Hrun : feed 4 2 demo_prompt (line_quote_space ++ ["x"; NL]) (esh_init 4 2)
                 = Ok (tt, s', t)) by by_evaluation.
  exists s', t. split; [exact Hrun|]. split; [|by_evaluation].
  exact (reachable_feed 4 2 demo_prompt _ _ _ _ (reachable_init 4 2 demo_prompt) Hrun).
Qed.

(** C3, counterexample: after tokenizing [line_git] the buffer does not
    start with the tokens separated by single NULs. *)
Lemma git_line_is_not_single_nul_separated :
  exists s',
    make_arg_array 40 4 (holding 40 4 line_git) = Ok (4, s', [])
    /\ take (length line_git_single_nul) (buffer s') <> line_git_single_nul.
Proof.
  exists ltac:(run_state (make_arg_array 40 4 (holding 40 4 line_git))).
  by_evaluation.
Qed.

(** C9, counterexample: [line_open_escape] and a newline, fed twice from
    the initial state.  The first newline is swallowed by the pending escape
    sequence and no command runs; the second time the letter O closes the
    sequence left pending, and the callback is called with the argument 12. *)
Lemma open_escape_replay_differs :
  exists s1 t1 s2 t2,
    feed 4 2 demo_prompt (line_open_escape ++ [NL]) (esh_init 4 2) = Ok (tt, s1, t1)
    /\ feed 4 2 demo_prompt (line_open_escape ++ [NL]) s1 = Ok (tt, s2, t2)
    /\ callbacks t1 = []
    /\ callbacks t2 = [EvCallback 1 [Some 0; None] (bytes "12" ++ [NUL; NUL; NUL])].
Proof.
  pose (s1 := ltac:(run_state (feed 4 2 demo_prompt (line_open_escape ++ [NL]) (esh_init 4 2)))).
  exists s1,
    ltac:(run_trace (feed 4 2 demo_prompt (line_open_escape ++ [NL]) (esh_init 4 2))),
    ltac:(run_state (feed 4 2 demo_prompt (line_open_escape ++ [NL]) s1)),
    ltac:(run_trace (feed 4 2 demo_prompt (line_open_escape ++ [NL]) s1)).
  by_evaluation.
Qed.

(** * The general properties at work on concrete contexts *)

(** The sample line holds no newline. *)
Lemma not_in_bytes_ls : NL ∉ bytes "ls -l".
Proof.
  intros H. vm_compute in H.
  repeat (apply elem_of_cons in H as [H|H]; [discriminate|]).
  by apply elem_of_nil in H.
Defined.

(** [newline_dispatch] on the line ls -l: two arguments, the callback is
    called. *)
Lemma newline_dispatch_witness :
  wf 8 2 (holding 8 2 (bytes "ls -l"))
  /\ no_escape (holding 8 2 (bytes "ls -l"))
  /\ esh_rx 8 2 demo_prompt NL (holding 8 2 (bytes "ls -l")) =
       Ok (tt, replay_state,
           [EvPrint [NL]; EvCallback 2 [Some 0; Some 3] (buffer replay_state);
            EvPrint ["$"]; EvPrint [" "]]).
Proof.
  assert (Hwf : wf 8 2 (holding 8 2 (bytes "ls -l"))) by (split; reflexivity).
  assert (Hs : no_escape (holding 8 2 (bytes "ls -l"))) by (split; reflexivity).
  assert (Hc : cnt (holding 8 2 (bytes "ls -l")) <= 8 + 1) by (vm_compute; lia).
  split; [exact Hwf|]. split; [exact Hs|].
  destruct (newline_dispatch 8 2 demo_prompt _ Hwf Hs Hc) as [_ Hall].
  assert (Hrun : make_arg_array 8 2 (holding 8 2 (bytes "ls -l")) =
                 Ok (2, set_cnt 5 replay_state, [])) by (vm_compute; reflexivity).
  destruct (Hall _ _ _ Hrun) as (_ & _ & _ & _ & _ & _ & Hrx).
  rewrite Hrx. vm_compute. reflexivity.
Defined.

(** [tokenize_git_line] in a buffer of 40 + 1 bytes with 4 argument slots. *)
Lemma tokenize_git_line_witness :
  exists s',
    make_arg_array 40 4 (holding 40 4 line_git) = Ok (4, s', [])
    /\ token_at s' 0 = Some (bytes "git")
    /\ token_at s' 1 = Some (bytes "config")
    /\ token_at s' 2 = Some (bytes "user.name")
    /\ token_at s' 3 = Some (bytes "My Name")
    /\ take (length line_git_rewritten) (buffer s') = line_git_rewritten
    /\ buffer s' !! 40 = Some NUL.
Proof.
  apply (tokenize_git_line 40 4 (holding 40 4 line_git) (replicate 9 NUL)).
  - split; reflexivity.
  - lia.
  - reflexivity.
  - reflexivity.
Defined.

(** [overflow_at_capacity] on a full buffer of 4 + 1 bytes. *)
Lemma overflow_at_capacity_witness :
  wf 4 2 (holding 4 2 (bytes "abcd"))
  /\ plain "e"
  /\ esh_rx 4 2 demo_prompt "e" (holding 4 2 (bytes "abcd")) =
       Ok (tt,
           set_buffer (<[4 := NUL]> (buffer (holding 4 2 (bytes "abcd"))))
             (set_cnt (4 + 1) (holding 4 2 (bytes "abcd"))),
           EvOverflow (<[4 := NUL]> (buffer (holding 4 2 (bytes "abcd"))))
             :: handler_output (holding 4 2 (bytes "abcd"))).
Proof.
  assert (Hwf : wf 4 2 (holding 4 2 (bytes "abcd"))) by (split; reflexivity).
  assert (Hs : no_escape (holding 4 2 (bytes "abcd"))) by (split; reflexivity).
  assert (Hc : plain "e") by (repeat split; discriminate).
  split; [exact Hwf|]. split; [exact Hc|].
  exact (proj1 (overflow_at_capacity 4 2 demo_prompt _ "e" Hwf Hs eq_refl Hc)).
Defined.

(** [tokenize_why_line] in a buffer of 40 + 1 bytes with 4 argument slots. *)
Lemma tokenize_why_line_witness :
  exists s',
    make_arg_array 40 4 (holding 40 4 line_why) = Ok (1, s', [])
    /\ argv s' !! 0 = Some (Some 0)
    /\ token_at s' 0 = Some token_why
    /\ take (S (length token_why)) (buffer s') = token_why ++ [NUL].
Proof.
  apply (tokenize_why_line 40 4 (holding 40 4 line_why) (replicate 7 NUL)).
  - split; reflexivity.
  - lia.
  - reflexivity.
  - reflexivity.
Defined.

(** [escape_sequences_are_absorbed] while the line ls is being typed. *)
Lemma escape_sequences_are_absorbed_witness :
  no_escape (holding 8 2 (bytes "ls"))
  /\ feed 8 2 demo_prompt [ESC; "["; "A"] (holding 8 2 (bytes "ls")) =
       Ok (tt, holding 8 2 (bytes "ls"), [])
  /\ feed 8 2 demo_prompt [ESC; "x"] (holding 8 2 (bytes "ls")) =
       Ok (tt, holding 8 2 (bytes "ls"), []).
Proof.
  assert (Hs : no_escape (holding 8 2 (bytes "ls"))) by (split; reflexivity).
  split; [exact Hs|].
  destruct (escape_sequences_are_absorbed 8 2 demo_prompt _ Hs) as [H1 H2].
  split; [exact H1|]. apply H2; discriminate.
Defined.

(** [backspace_behaviour] on a buffer filled to exactly ESH_BUFFER_LEN. *)
Lemma backspace_behaviour_witness :
  no_escape (holding 4 2 (bytes "abcd"))
  /\ 0 < cnt (holding 4 2 (bytes "abcd")) <= 4
  /\ esh_rx 4 2 demo_prompt BS (holding 4 2 (bytes "abcd")) =
       Ok (tt, set_cnt (4 - 1) (holding 4 2 (bytes "abcd")),
           [EvPrint [BS; " "; BS]]).
Proof.
  assert (Hs : no_escape (holding 4 2 (bytes "abcd"))) by (split; reflexivity).
  assert (Hc : 0 < cnt (holding 4 2 (bytes "abcd")) <= 4) by (vm_compute; lia).
  split; [exact Hs|]. split; [exact Hc|].
  exact (proj1 (proj2 (backspace_behaviour 4 2 demo_prompt _ BS Hs (or_introl eq_refl))) Hc).
Defined.

(** [line_replay] on the line ls -l, from the initial context. *)
Lemma line_replay_witness :
  feed 8 2 demo_prompt (bytes "ls -l" ++ [NL]) (esh_init 8 2) =
    Ok (tt, replay_state, replay_trace)
  /\ feed 8 2 demo_prompt (bytes "ls -l" ++ [NL]) replay_state =
       Ok (tt, replay_state, replay_trace).
Proof.
  assert (Hrun : feed 8 2 demo_prompt (bytes "ls -l" ++ [NL]) (esh_init 8 2) =
                 Ok (tt, replay_state, replay_trace)) by (vm_compute; reflexivity).
  split; [exact Hrun|].
  apply (line_replay 8 2 demo_prompt (esh_init 8 2) (holding 8 2 (bytes "ls -l"))
           replay_state (bytes "ls -l")
           (map (fun c => EvPrint [c]) (bytes "ls -l")) replay_trace).
  - split; reflexivity.
  - reflexivity.
  - split; reflexivity.
  - exact not_in_bytes_ls.
  - vm_compute; reflexivity.
  - split; reflexivity.
  - exact Hrun.
Defined.

(** * The further properties at work on concrete contexts *)

Ltac not_in_list :=
  let H := fresh "H" in
  intros H; vm_compute in H;
  repeat (apply elem_of_cons in H as [H|H]; [discriminate|]);
  by apply elem_of_nil in H.

Ltac forall_bytes tac :=
  unfold bytes; cbn [list_ascii_of_string app];
  repeat (apply List.Forall_cons; [tac|]); apply List.Forall_nil.

Ltac plain_bytes := forall_bytes ltac:(repeat split; discriminate).

(** [escape_consumes_every_byte]: a newline arriving right after ESC. *)
Lemma escape_consumes_every_byte_witness :
  exists f,
    esh_rx 8 2 demo_prompt NL (set_flags 1 (holding 8 2 (bytes "ls"))) =
      Ok (tt, set_flags f (set_flags 1 (holding 8 2 (bytes "ls"))), []).
Proof.
  apply (escape_consumes_every_byte 8 2 demo_prompt).
  intros [H _]. vm_compute in H. discriminate.
Defined.

(** [control_sequence_is_absorbed]: ESC [ 1 ; 5 C while ls is on the line. *)
Lemma control_sequence_is_absorbed_witness :
  feed 8 2 demo_prompt (ESC :: "[" :: bytes "1;5" ++ ["C"]) (holding 8 2 (bytes "ls")) =
    Ok (tt, holding 8 2 (bytes "ls"), []).
Proof.
  apply (control_sequence_is_absorbed 8 2 demo_prompt).
  - split; reflexivity.
  - left; reflexivity.
  - forall_bytes ltac:(reflexivity).
  - reflexivity.
Defined.

(** [esh_puts_F_prints_up_to_NUL]: the string ab, a NUL, then cd. *)
Lemma esh_puts_F_prints_up_to_NUL_witness :
  esh_puts_F (bytes "ab" ++ NUL :: bytes "cd") (esh_init 8 2) =
    Ok (tt, esh_init 8 2, map (fun c => EvPrint [c]) (bytes "ab")).
Proof.
  apply (esh_puts_F_prints_up_to_NUL (bytes "ab") (bytes "cd") (esh_init 8 2)).
  not_in_list.
Defined.

(** [typing_plain_bytes]: the bytes space, minus, l typed after ls. *)
Lemma typing_plain_bytes_witness :
  feed 8 2 demo_prompt (bytes " -l") (holding 8 2 (bytes "ls")) =
    Ok (tt, holding 8 2 (bytes "ls -l"), map (fun c => EvPrint [c]) (bytes " -l")).
Proof.
  rewrite (typing_plain_bytes 8 2 demo_prompt (bytes " -l") (holding 8 2 (bytes "ls"))).
  - vm_compute. reflexivity.
  - split; reflexivity.
  - split; reflexivity.
  - plain_bytes.
  - vm_compute. lia.
Defined.

(** [type_then_backspace]: x typed after ls and deleted again. *)
Lemma type_then_backspace_witness :
  feed 8 2 demo_prompt ["x"; DEL] (holding 8 2 (bytes "ls")) =
    Ok (tt,
        set_buffer (<[cnt (holding 8 2 (bytes "ls")) := "x"]>
                      (buffer (holding 8 2 (bytes "ls"))))
          (holding 8 2 (bytes "ls")),
        [EvPrint ["x"]; EvPrint [BS; " "; BS]]).
Proof.
  apply (type_then_backspace 8 2 demo_prompt (holding 8 2 (bytes "ls")) "x" DEL).
  - split; reflexivity.
  - split; reflexivity.
  - vm_compute. lia.
  - repeat split; discriminate.
  - right; reflexivity.
Defined.

(** [no_newline_no_dispatch]: ls, a cursor key and a backspace. *)
Lemma no_newline_no_dispatch_witness :
  exists s' t,
    feed 8 2 demo_prompt (bytes "ls" ++ [ESC] ++ bytes "[A" ++ [BS]) (esh_init 8 2) =
      Ok (tt, s', t)
    /\ inv 8 2 s' /\ argv s' = argv (esh_init 8 2)
    /\ overflow s' = overflow (esh_init 8 2)
    /\ callbacks t = [].
Proof.
  apply (no_newline_no_dispatch 8 2 demo_prompt).
  - apply inv_init.
  - not_in_list.
Defined.

(** [overflow_state_is_sticky]: after abcd and a lost byte in a buffer of
    4 + 1 bytes, a backspace, a letter and a cursor key. *)
Lemma overflow_state_is_sticky_witness :
  exists s' t,
    feed 4 2 demo_prompt [BS; "x"; ESC; "["; "A"]
      (set_cnt 5 (holding 4 2 (bytes "abcd"))) = Ok (tt, s', t)
    /\ cnt s' = 4 + 1
    /\ buffer s' = buffer (set_cnt 5 (holding 4 2 (bytes "abcd"))).
Proof.
  apply (overflow_state_is_sticky 4 2 demo_prompt).
  - split; reflexivity.
  - reflexivity.
  - reflexivity.
  - not_in_list.
Defined.

(** [only_fault_is_the_terminator_store]: a letter in the initial state. *)
Lemma only_fault_is_the_terminator_store_witness :
  (exists s' t, esh_rx 8 2 demo_prompt "a" (esh_init 8 2) = Ok (tt, s', t))
  \/ ("a" = NL /\ no_escape (esh_init 8 2) /\ cnt (esh_init 8 2) = 8 + 1
      /\ esh_rx 8 2 demo_prompt "a" (esh_init 8 2) = OutOfBounds (8 + 1)).
Proof.
  apply (only_fault_is_the_terminator_store 8 2 demo_prompt "a" (esh_init 8 2)).
  apply inv_init.
Defined.


(** [recorded_pointers_lie_in_the_line]: the line ls -l. *)
Lemma recorded_pointers_lie_in_the_line_witness :
  2 <= cnt (holding 8 2 (bytes "ls -l"))
  /\ forall k p, k < 2 -> argv (set_cnt 5 replay_state) !! k = Some (Some p) ->
       p < cnt (holding 8 2 (bytes "ls -l")) /\ p < 8.
Proof.
  apply (recorded_pointers_lie_in_the_line 8 2 (holding 8 2 (bytes "ls -l"))
           (set_cnt 5 replay_state) 2 []).
  - split; reflexivity.
  - vm_compute. lia.
  - vm_compute. reflexivity.
Defined.

(** [blank_line_only_reprints_the_prompt]: a line of three spaces. *)
Lemma blank_line_only_reprints_the_prompt_witness :
  exists s',
    esh_rx 8 2 demo_prompt NL (holding 8 2 (bytes "   ")) =
      Ok (tt, s', EvPrint [NL] :: prompt_output demo_prompt)
    /\ cnt s' = 0 /\ argv s' = argv (holding 8 2 (bytes "   ")).
Proof.
  apply (blank_line_only_reprints_the_prompt 8 2 demo_prompt).
  - split; reflexivity.
  - split; reflexivity.
  - vm_compute. lia.
  - vm_compute. repeat (apply List.Forall_cons; [reflexivity|]). apply List.Forall_nil.
Defined.

(** [unquoted_line_is_split_into_words]: the line ls -l. *)
Lemma unquoted_line_is_split_into_words_witness :
  exists s',
    make_arg_array 8 2 (holding 8 2 (bytes "ls -l")) =
      Ok (length (words true (take (cnt (holding 8 2 (bytes "ls -l")))
                                (buffer (holding 8 2 (bytes "ls -l"))))), s', [])
    /\ argv s' =
         record_args 2 0
           (token_writes 0 NUL true
              (take (cnt (holding 8 2 (bytes "ls -l")))
                 (buffer (holding 8 2 (bytes "ls -l")))))
           (argv (holding 8 2 (bytes "ls -l")))
    /\ forall k w,
         k < 2 ->
         words true (take (cnt (holding 8 2 (bytes "ls -l")))
                       (buffer (holding 8 2 (bytes "ls -l")))) !! k = Some w ->
         token_at s' k = Some w.
Proof.
  apply (unquoted_line_is_split_into_words 8 2 (holding 8 2 (bytes "ls -l"))).
  - split; reflexivity.
  - vm_compute. lia.
  - vm_compute. repeat (apply List.Forall_cons; [reflexivity|]). apply List.Forall_nil.
  - not_in_list.
Defined.

(** [quoted_argument]: a b between double quotes. *)
Lemma quoted_argument_witness :
  exists s',
    make_arg_array 8 2 (holding 8 2 ([DQUOTE] ++ bytes "a b" ++ [DQUOTE])) =
      Ok (1, s', [])
    /\ token_at s' 0 = Some (bytes "a b").
Proof.
  apply (quoted_argument 8 2 (holding 8 2 ([DQUOTE] ++ bytes "a b" ++ [DQUOTE]))
           DQUOTE (bytes "a b") [DQUOTE]).
  - split; reflexivity.
  - lia.
  - vm_compute. lia.
  - reflexivity.
  - not_in_list.
  - not_in_list.
  - right; reflexivity.
  - reflexivity.
Defined.

(** [command_line_reaches_the_callback]: ls -l from the initial state. *)
Lemma command_line_reaches_the_callback_witness :
  exists s',
    feed 8 2 demo_prompt (bytes "ls -l" ++ [NL]) (esh_init 8 2) =
      Ok (tt, s',
          map (fun c => EvPrint [c]) (bytes "ls -l")
            ++ EvPrint [NL]
            :: EvCallback (length (words true (bytes "ls -l"))) (argv s') (buffer s')
            :: prompt_output demo_prompt)
    /\ cnt s' = 0
    /\ forall k w,
         words true (bytes "ls -l") !! k = Some w -> token_at s' k = Some w.
Proof.
  apply (command_line_reaches_the_callback 8 2 demo_prompt (esh_init 8 2) (bytes "ls -l")).
  - split; reflexivity.
  - split; reflexivity.
  - reflexivity.
  - plain_bytes.
  - forall_bytes ltac:(reflexivity).
  - vm_compute. lia.
  - vm_compute. lia.
Defined.

(** [too_many_words_reach_the_overflow_handler]: a b c with two argument
    slots. *)
Lemma too_many_words_reach_the_overflow_handler_witness :
  exists s',
    feed 8 2 demo_prompt (bytes "a b c" ++ [NL]) (esh_init 8 2) =
      Ok (tt, s',
          map (fun c => EvPrint [c]) (bytes "a b c")
            ++ EvPrint [NL]
            :: EvOverflow (buffer s') :: handler_output s'
            ++ prompt_output demo_prompt)
    /\ cnt s' = 0
    /\ forall k w,
         k < 2 -> words true (bytes "a b c") !! k = Some w ->
         token_at s' k = Some w.
Proof.
  apply (too_many_words_reach_the_overflow_handler 8 2 demo_prompt
           (esh_init 8 2) (bytes "a b c")).
  - split; reflexivity.
  - split; reflexivity.
  - reflexivity.
  - plain_bytes.
  - forall_bytes ltac:(reflexivity).
  - vm_compute. lia.
  - vm_compute. lia.
Defined.

(** [reachable_context_is_bounded]: the state reached by typing ls. *)
Lemma reachable_context_is_bounded_witness :
  length (buffer (holding 8 2 (bytes "ls"))) = 8 + 1
  /\ length (argv (holding 8 2 (bytes "ls"))) = 2
  /\ cnt (holding 8 2 (bytes "ls")) <= 8 + 1
  /\ (cnt (holding 8 2 (bytes "ls")) = 8 + 1 ->
      buffer (holding 8 2 (bytes "ls")) !! 8 = Some NUL)
  /\ (forall i, i < cnt (holding 8 2 (bytes "ls")) -> i < 8 ->
        buffer (holding 8 2 (bytes "ls")) !! i <> Some NUL).
Proof.
  apply (reachable_context_is_bounded 8 2 demo_prompt).
  apply (reachable_feed 8 2 demo_prompt (bytes "ls") (esh_init 8 2) _
           (map (fun c => EvPrint [c]) (bytes "ls"))).
  - apply reachable_init.
  - vm_compute. reflexivity.
Defined.
